(** * aws-sns-send-message: validation and request construction (src/sns.ts)

    A shallow embedding of [src/sns.ts] and the properties of its
    validators, of the attribute parser and of [publishMessage].

    JavaScript strings are sequences of UTF-16 code units; they are modelled
    as lists of code units so that [length], [endsWith], the regular
    expression and the UTF-8 byte length behave as they do in the runtime. *)

From Stdlib Require Import List NArith Ascii String Bool Arith Lia.
Import ListNotations.

Set Implicit Arguments.
Set Warnings "-register-all".

(* ================================================================== *)
(** * JavaScript strings *)
(* ================================================================== *)

Module JS.

(** A UTF-16 code unit and a JavaScript string. *)
Definition code_unit := N.
Definition jsstring := list code_unit.

(** [js "text"] is the JavaScript string literal with the same ASCII text. *)
Fixpoint js (s : string) : jsstring :=
  match s with
  | EmptyString => []
  | String a rest => N_of_ascii a :: js rest
  end.

(** The double quote, written apart from the literals. *)
Definition dq : jsstring := [34%N].

Definition quoted (s : jsstring) : jsstring := dq ++ s ++ dq.

(** Strict equality [===] of two strings. *)
Fixpoint str_eqb (a b : jsstring) : bool :=
  match a, b with
  | [], [] => true
  | x :: a', y :: b' => N.eqb x y && str_eqb a' b'
  | _, _ => false
  end.

(** [a.length]. *)
Definition str_length (s : jsstring) : N := N.of_nat (List.length s).

(** [s.endsWith(suffix)]: the last [suffix.length] code units of [s] are
    [suffix]; false when [s] is shorter than [suffix]. *)
Definition endsWith (s suffix : jsstring) : bool :=
  let n := List.length s in
  let m := List.length suffix in
  if Nat.leb m n then str_eqb (skipn (n - m) s) suffix else false.

(** Truthiness of a string: every string but the empty one. *)
Definition str_truthy (s : jsstring) : bool :=
  match s with [] => false | _ :: _ => true end.

(** Truthiness of an optional string property ([undefined] is falsy). *)
Definition truthy (o : option jsstring) : bool :=
  match o with None => false | Some s => str_truthy s end.

(** Decimal digits of a non-negative integer, as template literals and
    [String()] print it. *)
Fixpoint uint_units (d : Decimal.uint) : jsstring :=
  match d with
  | Decimal.Nil => []
  | Decimal.D0 d' => 48%N :: uint_units d'
  | Decimal.D1 d' => 49%N :: uint_units d'
  | Decimal.D2 d' => 50%N :: uint_units d'
  | Decimal.D3 d' => 51%N :: uint_units d'
  | Decimal.D4 d' => 52%N :: uint_units d'
  | Decimal.D5 d' => 53%N :: uint_units d'
  | Decimal.D6 d' => 54%N :: uint_units d'
  | Decimal.D7 d' => 55%N :: uint_units d'
  | Decimal.D8 d' => 56%N :: uint_units d'
  | Decimal.D9 d' => 57%N :: uint_units d'
  end.

Definition decimal (n : N) : jsstring := uint_units (N.to_uint n).

(** ** UTF-8 encoding of a string ([Buffer.from(s, 'utf8')])

    A surrogate pair encodes one code point above U+FFFF in four bytes; a
    surrogate that is not part of a pair is replaced by U+FFFD, three
    bytes. *)

Definition is_high_surrogate (c : code_unit) : bool :=
  (N.leb 0xD800 c && N.leb c 0xDBFF)%N.
Definition is_low_surrogate (c : code_unit) : bool :=
  (N.leb 0xDC00 c && N.leb c 0xDFFF)%N.

Definition utf8_1 (c : N) : list N := [c].
Definition utf8_2 (c : N) : list N :=
  [N.lor 0xC0 (N.shiftr c 6); N.lor 0x80 (N.land c 0x3F)].
Definition utf8_3 (c : N) : list N :=
  [N.lor 0xE0 (N.shiftr c 12);
   N.lor 0x80 (N.land (N.shiftr c 6) 0x3F);
   N.lor 0x80 (N.land c 0x3F)].
Definition utf8_4 (c : N) : list N :=
  [N.lor 0xF0 (N.shiftr c 18);
   N.lor 0x80 (N.land (N.shiftr c 12) 0x3F);
   N.lor 0x80 (N.land (N.shiftr c 6) 0x3F);
   N.lor 0x80 (N.land c 0x3F)].

Definition replacement : list N := utf8_3 0xFFFD.

Definition code_point (hi lo : code_unit) : N :=
  (0x10000 + N.shiftl (hi - 0xD800) 10 + (lo - 0xDC00))%N.

Fixpoint utf8_encode (s : jsstring) : list N :=
  match s with
  | [] => []
  | c :: rest =>
      if N.ltb c 0x80 then utf8_1 c ++ utf8_encode rest
      else if N.ltb c 0x800 then utf8_2 c ++ utf8_encode rest
      else if is_high_surrogate c then
        match rest with
        | d :: rest' =>
            if is_low_surrogate d
            then utf8_4 (code_point c d) ++ utf8_encode rest'
            else replacement ++ utf8_encode rest
        | [] => replacement
        end
      else if is_low_surrogate c then replacement ++ utf8_encode rest
      else utf8_3 c ++ utf8_encode rest
  end.

(** [Buffer.byteLength(s, 'utf8')]. *)
Definition byteLength (s : jsstring) : N := N.of_nat (List.length (utf8_encode s)).

End JS.
Import JS.

(* ================================================================== *)
(** * Regular expressions *)
(* ================================================================== *)

(** The fragment of JavaScript regular expressions used by [sns.ts]:
    literals, character classes, [.], concatenation and [+]. Matching is by
    derivatives; the pattern of the source is anchored with [^] and [$] and
    carries no flag, so [test] holds exactly when the whole input matches. *)
Module Regex.

Inductive regex : Type :=
| Void : regex
| Eps : regex
| Class : (code_unit -> bool) -> regex
| Seq : regex -> regex -> regex
| Alt : regex -> regex -> regex
| Star : regex -> regex.

Definition Plus (r : regex) : regex := Seq r (Star r).

Fixpoint Lit (s : jsstring) : regex :=
  match s with
  | [] => Eps
  | c :: rest => Seq (Class (N.eqb c)) (Lit rest)
  end.

Fixpoint nullable (r : regex) : bool :=
  match r with
  | Void => false
  | Eps => true
  | Class _ => false
  | Seq a b => nullable a && nullable b
  | Alt a b => nullable a || nullable b
  | Star _ => true
  end.

Fixpoint deriv (c : code_unit) (r : regex) : regex :=
  match r with
  | Void => Void
  | Eps => Void
  | Class p => if p c then Eps else Void
  | Seq a b =>
      if nullable a then Alt (Seq (deriv c a) b) (deriv c b)
      else Seq (deriv c a) b
  | Alt a b => Alt (deriv c a) (deriv c b)
  | Star a => Seq (deriv c a) (Star a)
  end.

Fixpoint matches (r : regex) (s : jsstring) : bool :=
  match s with
  | [] => nullable r
  | c :: rest => matches (deriv c r) rest
  end.

(** [/^r$/.test(s)] for a pattern without flags. *)
Definition test_anchored (r : regex) (s : jsstring) : bool := matches r s.

(** [[a-z0-9-]]. *)
Definition lower_digit_hyphen (c : code_unit) : bool :=
  ((N.leb 97 c && N.leb c 122) || (N.leb 48 c && N.leb c 57) || N.eqb c 45)%N.

(** [\d]: the ten ASCII digits. *)
Definition digit (c : code_unit) : bool := (N.leb 48 c && N.leb c 57)%N.

(** The line terminators LF, CR, U+2028 and U+2029. *)
Definition line_terminator (c : code_unit) : bool :=
  (N.eqb c 0x0A || N.eqb c 0x0D || N.eqb c 0x2028 || N.eqb c 0x2029)%N.

(** [.] without the [s] flag: any code unit but a line terminator. *)
Definition dot (c : code_unit) : bool := negb (line_terminator c).

(** The declarative meaning of a pattern. *)
Inductive lang : regex -> jsstring -> Prop :=
| L_eps : lang Eps []
| L_class p c : p c = true -> lang (Class p) [c]
| L_seq a b s t : lang a s -> lang b t -> lang (Seq a b) (s ++ t)
| L_alt_l a b s : lang a s -> lang (Alt a b) s
| L_alt_r a b s : lang b s -> lang (Alt a b) s
| L_star_nil a : lang (Star a) []
| L_star_cons a s t : lang a s -> lang (Star a) t -> lang (Star a) (s ++ t).

End Regex.
Import Regex.

(* ================================================================== *)
(** * JSON values and [JSON.parse] *)
(* ================================================================== *)

Module JSON.

(** The values [JSON.parse] produces. A number keeps its literal, which
    determines the double it denotes. An object keeps its own properties in
    the order [Object.keys] and [Object.entries] enumerate them. *)
Inductive json : Type :=
| JNull : json
| JBool : bool -> json
| JNumber : jsstring -> json
| JString : jsstring -> json
| JArray : list json -> json
| JObject : list (jsstring * json) -> json.

(** ** Own properties of an ordinary object *)

Definition is_digit (c : code_unit) : bool := (N.leb 48 c && N.leb c 57)%N.

Fixpoint digits_value (acc : N) (s : jsstring) : N :=
  match s with
  | [] => acc
  | c :: rest => digits_value (acc * 10 + (c - 48))%N rest
  end.

(** An array index is the canonical decimal form of an integer below
    [2^32 - 1]; such keys are enumerated first, in ascending order. *)
Definition array_index (k : jsstring) : option N :=
  match k with
  | [] => None
  | c :: rest =>
      if forallb is_digit k && (negb (N.eqb c 48) || match rest with [] => true | _ => false end)
      then let n := digits_value 0 k in
           if N.leb n 4294967294 then Some n else None
      else None
  end.

Section Props.
Variable V : Type.

Fixpoint lookup (k : jsstring) (props : list (jsstring * V)) : option V :=
  match props with
  | [] => None
  | (k', v) :: rest => if str_eqb k k' then Some v else lookup k rest
  end.

Fixpoint replace (k : jsstring) (v : V) (props : list (jsstring * V)) : list (jsstring * V) :=
  match props with
  | [] => []
  | (k', v') :: rest =>
      if str_eqb k k' then (k', v) :: rest else (k', v') :: replace k v rest
  end.

(** Position of a new array-index key: before the first key that is not an
    array index or is a larger one. *)
Fixpoint insert_index (n : N) (k : jsstring) (v : V) (props : list (jsstring * V)) : list (jsstring * V) :=
  match props with
  | [] => [(k, v)]
  | (k', v') :: rest =>
      match array_index k' with
      | Some m => if N.ltb n m then (k, v) :: props else (k', v') :: insert_index n k v rest
      | None => (k, v) :: props
      end
  end.

(** [CreateDataProperty]: an existing key keeps its place and takes the new
    value; a new key is enumerated after the older ones of its kind. *)
Definition define_own (props : list (jsstring * V)) (k : jsstring) (v : V) : list (jsstring * V) :=
  match lookup k props with
  | Some _ => replace k v props
  | None =>
      match array_index k with
      | Some n => insert_index n k v props
      | None => props ++ [(k, v)]
      end
  end.

(** The pairs [index, element] of an array-like value. *)
Fixpoint indexed_from (i : N) (l : list V) : list (jsstring * V) :=
  match l with
  | [] => []
  | x :: rest => (decimal i, x) :: indexed_from (N.succ i) rest
  end.

Definition indexed (l : list V) : list (jsstring * V) := indexed_from 0 l.

End Props.

(** ** Lexer *)

Inductive token : Type :=
| TLBrace | TRBrace | TLBracket | TRBracket | TColon | TComma
| TString : jsstring -> token
| TNumber : jsstring -> token
| TTrue | TFalse | TNull.

Inductive num_state : Type :=
| NMinus | NZero | NInt | NDot | NFrac | NExp | NExpSign | NExpDigits.

Inductive mode : Type :=
| MDefault : mode
| MString : jsstring -> mode
| MEscape : jsstring -> mode
| MUnicode : jsstring -> N -> nat -> mode
| MNumber : num_state -> jsstring -> mode
| MLiteral : jsstring -> token -> mode.

(** Lexer state: the tokens read so far, newest first, and the mode. *)
Definition lex_state : Type := (list token * mode)%type.

Definition is_ws (c : code_unit) : bool :=
  (N.eqb c 0x20 || N.eqb c 0x09 || N.eqb c 0x0A || N.eqb c 0x0D)%N.

Definition hex_value (c : code_unit) : option N :=
  if (N.leb 48 c && N.leb c 57)%N then Some (c - 48)%N
  else if (N.leb 97 c && N.leb c 102)%N then Some (c - 87)%N
  else if (N.leb 65 c && N.leb c 70)%N then Some (c - 55)%N
  else None.

Definition escape (c : code_unit) : option code_unit :=
  if N.eqb c 34 then Some 34%N          (* quote *)
  else if N.eqb c 92 then Some 92%N     (* backslash *)
  else if N.eqb c 47 then Some 47%N     (* slash *)
  else if N.eqb c 98 then Some 8%N      (* backspace *)
  else if N.eqb c 102 then Some 12%N    (* form feed *)
  else if N.eqb c 110 then Some 10%N    (* line feed *)
  else if N.eqb c 114 then Some 13%N    (* carriage return *)
  else if N.eqb c 116 then Some 9%N     (* tab *)
  else None.

Definition step_default (toks : list token) (c : code_unit) : option lex_state :=
  if is_ws c then Some (toks, MDefault)
  else if N.eqb c 123 then Some (TLBrace :: toks, MDefault)
  else if N.eqb c 125 then Some (TRBrace :: toks, MDefault)
  else if N.eqb c 91 then Some (TLBracket :: toks, MDefault)
  else if N.eqb c 93 then Some (TRBracket :: toks, MDefault)
  else if N.eqb c 58 then Some (TColon :: toks, MDefault)
  else if N.eqb c 44 then Some (TComma :: toks, MDefault)
  else if N.eqb c 34 then Some (toks, MString [])
  else if N.eqb c 45 then Some (toks, MNumber NMinus [c])
  else if N.eqb c 48 then Some (toks, MNumber NZero [c])
  else if is_digit c then Some (toks, MNumber NInt [c])
  else if N.eqb c 116 then Some (toks, MLiteral (js "rue") TTrue)
  else if N.eqb c 102 then Some (toks, MLiteral (js "alse") TFalse)
  else if N.eqb c 110 then Some (toks, MLiteral (js "ull") TNull)
  else None.

Definition is_e (c : code_unit) : bool := (N.eqb c 101 || N.eqb c 69)%N.

(** One code unit inside a number: the next state, [None] when the unit
    does not continue the number. *)
Definition num_next (st : num_state) (c : code_unit) : option num_state :=
  match st with
  | NMinus => if N.eqb c 48 then Some NZero else if is_digit c then Some NInt else None
  | NZero => if N.eqb c 46 then Some NDot else if is_e c then Some NExp else None
  | NInt => if is_digit c then Some NInt
            else if N.eqb c 46 then Some NDot else if is_e c then Some NExp else None
  | NDot => if is_digit c then Some NFrac else None
  | NFrac => if is_digit c then Some NFrac else if is_e c then Some NExp else None
  | NExp => if (N.eqb c 43 || N.eqb c 45)%N then Some NExpSign
            else if is_digit c then Some NExpDigits else None
  | NExpSign => if is_digit c then Some NExpDigits else None
  | NExpDigits => if is_digit c then Some NExpDigits else None
  end.

(** The states in which the units read so far form a number. *)
Definition num_complete (st : num_state) : bool :=
  match st with
  | NZero | NInt | NFrac | NExpDigits => true
  | NMinus | NDot | NExp | NExpSign => false
  end.

Definition lex_step (st : lex_state) (c : code_unit) : option lex_state :=
  let (toks, m) := st in
  match m with
  | MDefault => step_default toks c
  | MString acc =>
      if N.eqb c 34 then Some (TString (rev acc) :: toks, MDefault)
      else if N.eqb c 92 then Some (toks, MEscape acc)
      else if N.ltb c 0x20 then None
      else Some (toks, MString (c :: acc))
  | MEscape acc =>
      if N.eqb c 117 then Some (toks, MUnicode acc 0%N 3%nat)
      else match escape c with
           | Some u => Some (toks, MString (u :: acc))
           | None => None
           end
  | MUnicode acc v remaining =>
      match hex_value c with
      | Some h =>
          let v' := (v * 16 + h)%N in
          match remaining with
          | O => Some (toks, MString (v' :: acc))
          | S k => Some (toks, MUnicode acc v' k)
          end
      | None => None
      end
  | MNumber ns acc =>
      match num_next ns c with
      | Some ns' => Some (toks, MNumber ns' (c :: acc))
      | None =>
          if num_complete ns then step_default (TNumber (rev acc) :: toks) c else None
      end
  | MLiteral expected tok =>
      match expected with
      | [] => None
      | x :: rest =>
          if N.eqb c x
          then match rest with
               | [] => Some (tok :: toks, MDefault)
               | _ :: _ => Some (toks, MLiteral rest tok)
               end
          else None
      end
  end.

Fixpoint lex_run (st : lex_state) (s : jsstring) : option lex_state :=
  match s with
  | [] => Some st
  | c :: rest =>
      match lex_step st c with
      | Some st' => lex_run st' rest
      | None => None
      end
  end.

(** The tokens of a text, [None] when it is not a sequence of JSON tokens. *)
Definition lex (s : jsstring) : option (list token) :=
  match lex_run ([], MDefault) s with
  | Some (toks, MDefault) => Some (rev toks)
  | Some (toks, MNumber ns acc) =>
      if num_complete ns then Some (rev (TNumber (rev acc) :: toks)) else None
  | _ => None
  end.

(** ** Parser *)

(** A container under construction: the elements of an array, newest first,
    or the properties of an object and the key awaiting its value. *)
Inductive frame : Type :=
| FArray : list json -> frame
| FObject : list (jsstring * json) -> option jsstring -> frame.

Inductive expect : Type :=
| EValue            (* a value *)
| EValueOrClose     (* after [[]: a value or []] *)
| EKeyOrClose       (* after [{]: a key or [}] *)
| EKey              (* after [,] in an object: a key *)
| EColon            (* after a key *)
| ECommaOrClose     (* after a value in a container *)
| EDone : json -> expect.

Definition parse_state : Type := (list frame * expect)%type.

(** A complete value goes to the enclosing container, or ends the text. *)
Definition close_value (stack : list frame) (v : json) : option parse_state :=
  match stack with
  | [] => Some ([], EDone v)
  | FArray elems :: stack' => Some (FArray (v :: elems) :: stack', ECommaOrClose)
  | FObject props (Some k) :: stack' =>
      Some (FObject (define_own props k v) None :: stack', ECommaOrClose)
  | FObject _ None :: _ => None
  end.

Definition start_value (stack : list frame) (t : token) : option parse_state :=
  match t with
  | TLBrace => Some (FObject [] None :: stack, EKeyOrClose)
  | TLBracket => Some (FArray [] :: stack, EValueOrClose)
  | TString s => close_value stack (JString s)
  | TNumber n => close_value stack (JNumber n)
  | TTrue => close_value stack (JBool true)
  | TFalse => close_value stack (JBool false)
  | TNull => close_value stack JNull
  | TRBrace | TRBracket | TColon | TComma => None
  end.

Definition close_array (stack : list frame) : option parse_state :=
  match stack with
  | FArray elems :: stack' => close_value stack' (JArray (rev elems))
  | _ => None
  end.

Definition close_object (stack : list frame) : option parse_state :=
  match stack with
  | FObject props None :: stack' => close_value stack' (JObject props)
  | _ => None
  end.

Definition take_key (stack : list frame) (t : token) : option parse_state :=
  match t, stack with
  | TString k, FObject props None :: stack' => Some (FObject props (Some k) :: stack', EColon)
  | _, _ => None
  end.

Definition parse_step (st : parse_state) (t : token) : option parse_state :=
  let (stack, e) := st in
  match e with
  | EValue => start_value stack t
  | EValueOrClose =>
      match t with
      | TRBracket => close_array stack
      | _ => start_value stack t
      end
  | EKeyOrClose =>
      match t with
      | TRBrace => close_object stack
      | _ => take_key stack t
      end
  | EKey => take_key stack t
  | EColon =>
      match t with
      | TColon => Some (stack, EValue)
      | _ => None
      end
  | ECommaOrClose =>
      match t, stack with
      | TComma, FArray _ :: _ => Some (stack, EValue)
      | TComma, FObject _ _ :: _ => Some (stack, EKey)
      | TRBracket, _ => close_array stack
      | TRBrace, _ => close_object stack
      | _, _ => None
      end
  | EDone _ => None
  end.

Fixpoint parse_run (st : parse_state) (toks : list token) : option parse_state :=
  match toks with
  | [] => Some st
  | t :: rest =>
      match parse_step st t with
      | Some st' => parse_run st' rest
      | None => None
      end
  end.

(** [JSON.parse(text)]: the value, or [None] where it throws a
    [SyntaxError]. *)
Definition parse (text : jsstring) : option json :=
  match lex text with
  | Some toks =>
      match parse_run ([], EValue) toks with
      | Some ([], EDone v) => Some v
      | _ => None
      end
  | None => None
  end.

End JSON.
Import JSON.

(* ================================================================== *)
(** * Exceptions, and what the runtime decides *)
(* ================================================================== *)

Module Engine.

(** A thrown value: an [Error] (including [TypeError] and [SyntaxError])
    with its [message], or a value that is not an [Error], represented by
    the text [String()] gives for it. *)
Inductive thrown : Type :=
| Error : jsstring -> thrown
| NonError : jsstring -> thrown.

(** [error instanceof Error ? error.message : String(error)]. *)
Definition errorMessage (e : thrown) : jsstring :=
  match e with
  | Error m => m
  | NonError text => text
  end.

Definition result (A : Type) : Type := (thrown + A)%type.

Definition rbind {A B : Type} (r : result A) (f : A -> result B) : result B :=
  match r with
  | inl e => inl e
  | inr a => f a
  end.

(** The errors the runtime itself raises in [parseMessageAttributes]. *)
Inductive fault : Type :=
| Syntax_error : jsstring -> fault          (* JSON.parse on a malformed text *)
| Keys_of_null : fault                      (* Object.keys(null) *)
| Property_of_null : jsstring -> fault      (* reading a property of null *)
| Not_primitive : fault                     (* String() of an object whose toString is not callable *)
| Buffer_from_invalid : json -> fault.      (* Buffer.from of a value it does not accept *)

(** What [sns.ts] leaves to the runtime: the text of the errors above, the
    conversions of a double to a string and to a boolean, the lenient
    base64 decoding of [Buffer.from(text, 'base64')], and [Buffer.from] of
    an array or object ([None] where it throws). *)
Class Runtime : Type := {
  fault_message : fault -> jsstring;
  Number_toString : jsstring -> jsstring;
  Number_truthy : jsstring -> bool;
  base64_decode : jsstring -> list N;
  Buffer_from_object : json -> option (list N)
}.

Section WithRuntime.
Context {R : Runtime}.

Definition raise {A : Type} (f : fault) : result A := inl (Error (fault_message f)).

(** [JSON.parse(text)]. *)
Definition JSON_parse (text : jsstring) : result json :=
  match JSON.parse text with
  | Some v => inr v
  | None => raise (Syntax_error text)
  end.

(** [Object.entries(v)] for a parsed value: the characters of a string and
    the elements of an array under their indices, the own properties of an
    object, nothing for a number or a boolean; [null] throws. *)
Definition Object_entries (v : json) : result (list (jsstring * json)) :=
  match v with
  | JNull => raise Keys_of_null
  | JBool _ => inr []
  | JNumber _ => inr []
  | JString s => inr (indexed (map (fun c => JString [c]) s))
  | JArray elems => inr (indexed elems)
  | JObject props => inr props
  end.

(** [Object.keys(v)]. *)
Definition Object_keys (v : json) : result (list jsstring) :=
  rbind (Object_entries v) (fun es => inr (map fst es)).

(** [v.name] for one of the names [DataType], [StringValue] and
    [BinaryValue], which no prototype defines: the own property of an
    object, [undefined] ([None]) for any other value, an error for
    [null]. *)
Definition get_property (v : json) (name : jsstring) : result (option json) :=
  match v with
  | JNull => raise (Property_of_null name)
  | JObject props => inr (lookup name props)
  | JBool _ | JNumber _ | JString _ | JArray _ => inr None
  end.

(** Truthiness of a property value ([undefined] is falsy). *)
Definition ToBoolean (v : option json) : bool :=
  match v with
  | None => false
  | Some JNull => false
  | Some (JBool b) => b
  | Some (JNumber n) => Number_truthy n
  | Some (JString s) => str_truthy s
  | Some (JArray _) => true
  | Some (JObject _) => true
  end.

Fixpoint intercalate (sep : jsstring) (pieces : list jsstring) : jsstring :=
  match pieces with
  | [] => []
  | [p] => p
  | p :: rest => p ++ sep ++ intercalate sep rest
  end.

Definition has_own (name : jsstring) (props : list (jsstring * json)) : bool :=
  match lookup name props with Some _ => true | None => false end.

(** [String(v)] and the conversion of a template literal, [None] where it
    throws a [TypeError]. An array joins its elements with commas, [null]
    elements giving the empty string. An object gives [[object Object]]
    through [Object.prototype.toString], unless an own [toString] property
    (never callable in parsed JSON) hides it: then no method yields a
    primitive. *)
Fixpoint ToString_opt (v : json) : option jsstring :=
  match v with
  | JNull => Some (js "null")
  | JBool true => Some (js "true")
  | JBool false => Some (js "false")
  | JNumber n => Some (Number_toString n)
  | JString s => Some s
  | JArray elems =>
      option_map (intercalate (js ","))
        ((fix pieces (l : list json) : option (list jsstring) :=
            match l with
            | [] => Some []
            | e :: rest =>
                match (match e with JNull => Some [] | _ => ToString_opt e end), pieces rest with
                | Some p, Some ps => Some (p :: ps)
                | _, _ => None
                end
            end) elems)
  | JObject props =>
      if has_own (js "toString") props then None else Some (js "[object Object]")
  end.

Definition ToString (v : json) : result jsstring :=
  match ToString_opt v with
  | Some s => inr s
  | None => raise Not_primitive
  end.

(** [new Uint8Array(Buffer.from(v, 'base64'))]. *)
Definition Buffer_from_base64 (v : json) : result (list N) :=
  match v with
  | JString s => inr (base64_decode s)
  | JNull | JBool _ | JNumber _ => raise (Buffer_from_invalid v)
  | JArray _ | JObject _ =>
      match Buffer_from_object v with
      | Some bytes => inr bytes
      | None => raise (Buffer_from_invalid v)
      end
  end.

End WithRuntime.

End Engine.
Import Engine.

(* ================================================================== *)
(** * src/sns.ts *)
(* ================================================================== *)

Module Sns.

Record MessageConfig : Type := {
  topicArn : jsstring;
  message : jsstring;
  subject : option jsstring;
  messageAttributes : option jsstring;
  messageGroupId : option jsstring;
  messageDeduplicationId : option jsstring;
  messageStructure : option jsstring
}.

Record MessageResult : Type := {
  success : bool;
  messageId : option jsstring;
  sequenceNumber : option jsstring;
  error : option jsstring
}.

(** [MessageAttributeValue] of the SDK, as [parseMessageAttributes] fills
    it. *)
Record MessageAttributeValue : Type := {
  DataType : jsstring;
  StringValue : option jsstring;
  BinaryValue : option (list N)
}.

(** A [Record<string, MessageAttributeValue>]: its own properties in
    enumeration order. *)
Definition attributes : Type := list (jsstring * MessageAttributeValue).

(** [attributes[key] = messageAttr] on an ordinary object. The key
    [__proto__] reaches the setter of [Object.prototype] and replaces the
    prototype of the record; it creates no own property. *)
Definition assign (attrs : attributes) (key : jsstring) (messageAttr : MessageAttributeValue) : attributes :=
  if str_eqb key (js "__proto__") then attrs else define_own attrs key messageAttr.

(** [PublishCommandInput] of the SDK. The object literal of
    [publishMessage] sets [TopicArn] and [Message]; [TargetArn] and
    [PhoneNumber] are the fields of the SDK type that the source never
    names. *)
Record PublishCommandInput : Type := {
  TopicArn : jsstring;
  Message : jsstring;
  Subject : option jsstring;
  MessageAttributes : option attributes;
  MessageStructure : option jsstring;
  MessageGroupId : option jsstring;
  MessageDeduplicationId : option jsstring;
  TargetArn : option jsstring;
  PhoneNumber : option jsstring
}.

(** The fields of [PublishCommandOutput] that the source reads. *)
Record PublishCommandOutput : Type := {
  MessageId : option jsstring;
  SequenceNumber : option jsstring
}.

(** The client: what [client.send(command)] resolves to, or is rejected
    with, for each request. *)
Definition SNSClient : Type := PublishCommandInput -> result PublishCommandOutput.

(** What an invocation does to the outside: the log lines of
    [@actions/core] and the requests handed to the client. *)
Inductive event : Type :=
| Info : jsstring -> event
| Warning : jsstring -> event
| ErrorLog : jsstring -> event
| Send : PublishCommandInput -> event.

(** Computations that log, call the client and may throw. *)
Definition M (A : Type) : Type := (list event * result A)%type.

Definition ret {A : Type} (a : A) : M A := ([], inr a).

Definition bind {A B : Type} (m : M A) (f : A -> M B) : M B :=
  match m with
  | (t, inl e) => (t, inl e)
  | (t, inr a) => let (t', r) := f a in (t ++ t', r)
  end.

Definition lift {A : Type} (r : result A) : M A := ([], r).

Definition try_catch {A : Type} (body : M A) (handler : thrown -> M A) : M A :=
  match body with
  | (t, inl e) => let (t', r) := handler e in (t ++ t', r)
  | (t, inr a) => (t, inr a)
  end.

Definition core_info (m : jsstring) : M unit := ([Info m], inr tt).
Definition core_warning (m : jsstring) : M unit := ([Warning m], inr tt).
Definition core_error (m : jsstring) : M unit := ([ErrorLog m], inr tt).
Definition client_send (client : SNSClient) (input : PublishCommandInput) : M PublishCommandOutput :=
  ([Send input], client input).

Declare Scope sns_scope.
Delimit Scope sns_scope with sns.
Notation "x <- m ;; k" := (bind m (fun x => k))
  (at level 61, m at next level, right associativity) : sns_scope.
Notation "m ;; k" := (bind m (fun _ => k))
  (at level 61, right associativity) : sns_scope.
Notation "x <~ r ;; k" := (rbind r (fun x => k))
  (at level 61, r at next level, right associativity) : sns_scope.

(** [if (o) { ... }] on an optional string: the branch runs on a present,
    non-empty value. *)
Definition if_truthy {A : Type} (o : option jsstring) (then_ : jsstring -> A) (else_ : A) : A :=
  match o with
  | Some s => if str_truthy s then then_ s else else_
  | None => else_
  end.

Local Open Scope sns_scope.

Definition validDataTypes : list jsstring :=
  [js "String"; js "Number"; js "Binary"; js "String.Array"].

(** [validDataTypes.join(', ')]. *)
Definition validDataTypes_joined : jsstring := js "String, Number, Binary, String.Array".

(** [validDataTypes.includes(v)]: [v] is strictly equal to one of the four
    strings; the string is returned. *)
Definition includes (types : list jsstring) (v : option json) : option jsstring :=
  match v with
  | Some (JString d) => if existsb (str_eqb d) types then Some d else None
  | _ => None
  end.

Section WithRuntime.
Context {R : Runtime}.

(** The body of the loop of [parseMessageAttributes] up to the assignment:
    the attribute built from one entry. *)
Definition messageAttr_of (key : jsstring) (attr : json) : result MessageAttributeValue :=
  dataType <~ get_property attr (js "DataType") ;;
  if negb (ToBoolean dataType) then
    inl (Error (js "Missing DataType for attribute " ++ quoted key
                ++ js ". Must be one of: " ++ validDataTypes_joined))
  else
    match includes validDataTypes dataType with
    | None =>
        shown <~ match dataType with Some v => ToString v | None => inr (js "undefined") end ;;
        inl (Error (js "Invalid DataType " ++ quoted shown ++ js " for attribute " ++ quoted key
                    ++ js ". Must be one of: " ++ validDataTypes_joined))
    | Some dt =>
        stringValue <~ get_property attr (js "StringValue") ;;
        binaryValue <~ get_property attr (js "BinaryValue") ;;
        _ <~ (if str_eqb dt (js "String") || str_eqb dt (js "Number") || str_eqb dt (js "String.Array")
              then match stringValue with
                   | None => inl (Error (js "Missing StringValue for attribute " ++ quoted key
                                         ++ js " with DataType " ++ quoted dt))
                   | Some _ => inr tt
                   end
              else if str_eqb dt (js "Binary")
              then match binaryValue with
                   | None => inl (Error (js "Missing BinaryValue for attribute " ++ quoted key
                                         ++ js " with DataType " ++ quoted (js "Binary")))
                   | Some _ => inr tt
                   end
              else inr tt) ;;
        sv <~ match stringValue with
              | Some v => s <~ ToString v ;; inr (Some s)
              | None => inr None
              end ;;
        bv <~ match binaryValue with
              | Some v => bytes <~ Buffer_from_base64 v ;; inr (Some bytes)
              | None => inr None
              end ;;
        inr {| DataType := dt; StringValue := sv; BinaryValue := bv |}
    end.

(** The loop over [Object.entries(parsed)]. *)
Fixpoint convert_entries (entries : list (jsstring * json)) (attrs : attributes) : result attributes :=
  match entries with
  | [] => inr attrs
  | (key, value) :: rest =>
      messageAttr <~ messageAttr_of key value ;;
      convert_entries rest (assign attrs key messageAttr)
  end.

(** The [try] block of [parseMessageAttributes]. *)
Definition parse_body (attributesJson : jsstring) : result attributes :=
  parsed <~ JSON_parse attributesJson ;;
  attributeKeys <~ Object_keys parsed ;;
  if Nat.ltb 10 (List.length attributeKeys) then
    inl (Error (js "Too many message attributes: " ++ decimal (N.of_nat (List.length attributeKeys))
                ++ js ". Maximum allowed is 10."))
  else
    entries <~ Object_entries parsed ;;
    convert_entries entries [].

Definition parseMessageAttributes (attributesJson : jsstring) : result attributes :=
  match parse_body attributesJson with
  | inr attrs => inr attrs
  | inl e => inl (Error (js "Failed to parse message attributes: " ++ errorMessage e))
  end.

End WithRuntime.

(** [validateFifoTopic]: throws, or returns after at most one warning. *)
Definition validateFifoTopic (topicArn : jsstring) (messageGroupId : option jsstring) : M unit :=
  let isFifo := endsWith topicArn (js ".fifo") in
  if isFifo && negb (truthy messageGroupId) then
    lift (inl (Error (js "message-group-id is required for FIFO topics (topic ARN ends with .fifo)")))
  else if negb isFifo && truthy messageGroupId then
    core_warning (js "message-group-id is provided but topic ARN does not end with .fifo. "
                  ++ js "This parameter will be ignored for standard topics.")
  else ret tt.

(** [/^arn:aws:sns:[a-z0-9-]+:\d+:.+$/] *)
Definition arnPattern : regex :=
  Seq (Lit (js "arn:aws:sns:"))
 (Seq (Plus (Class lower_digit_hyphen))
 (Seq (Lit (js ":"))
 (Seq (Plus (Class digit))
 (Seq (Lit (js ":"))
      (Plus (Class dot)))))).

Definition validateTopicArn (topicArn : jsstring) : result unit :=
  if negb (test_anchored arnPattern topicArn) then
    inl (Error (js "Invalid topic ARN format: " ++ quoted topicArn ++ js ". "
                ++ js "Expected format: arn:aws:sns:{region}:{account-id}:{topic-name}"))
  else inr tt.

Definition maxSizeBytes : N := 256 * 1024.

Definition validateMessage (message : jsstring) : result unit :=
  let sizeInBytes := byteLength message in
  if N.ltb maxSizeBytes sizeInBytes then
    inl (Error (js "Message size (" ++ decimal sizeInBytes
                ++ js " bytes) exceeds maximum allowed size (" ++ decimal maxSizeBytes
                ++ js " bytes / 256 KB)"))
  else inr tt.

Definition validateMessageStructure (messageStructure : option jsstring) : result unit :=
  match messageStructure with
  | None => inr tt
  | Some s =>
      if negb (str_eqb s (js "json")) then
        inl (Error (js "Invalid message-structure: " ++ quoted s ++ js ". Must be "
                    ++ quoted (js "json") ++ js " or left empty."))
      else inr tt
  end.

(** The object literal [{ TopicArn, Message }]. *)
Definition new_input (topicArn message : jsstring) : PublishCommandInput :=
  {| TopicArn := topicArn; Message := message; Subject := None; MessageAttributes := None;
     MessageStructure := None; MessageGroupId := None; MessageDeduplicationId := None;
     TargetArn := None; PhoneNumber := None |}.

Definition set_Subject (i : PublishCommandInput) (v : jsstring) : PublishCommandInput :=
  {| TopicArn := TopicArn i; Message := Message i; Subject := Some v;
     MessageAttributes := MessageAttributes i; MessageStructure := MessageStructure i;
     MessageGroupId := MessageGroupId i; MessageDeduplicationId := MessageDeduplicationId i;
     TargetArn := TargetArn i; PhoneNumber := PhoneNumber i |}.

Definition set_MessageAttributes (i : PublishCommandInput) (v : attributes) : PublishCommandInput :=
  {| TopicArn := TopicArn i; Message := Message i; Subject := Subject i;
     MessageAttributes := Some v; MessageStructure := MessageStructure i;
     MessageGroupId := MessageGroupId i; MessageDeduplicationId := MessageDeduplicationId i;
     TargetArn := TargetArn i; PhoneNumber := PhoneNumber i |}.

Definition set_MessageStructure (i : PublishCommandInput) (v : jsstring) : PublishCommandInput :=
  {| TopicArn := TopicArn i; Message := Message i; Subject := Subject i;
     MessageAttributes := MessageAttributes i; MessageStructure := Some v;
     MessageGroupId := MessageGroupId i; MessageDeduplicationId := MessageDeduplicationId i;
     TargetArn := TargetArn i; PhoneNumber := PhoneNumber i |}.

Definition set_MessageGroupId (i : PublishCommandInput) (v : jsstring) : PublishCommandInput :=
  {| TopicArn := TopicArn i; Message := Message i; Subject := Subject i;
     MessageAttributes := MessageAttributes i; MessageStructure := MessageStructure i;
     MessageGroupId := Some v; MessageDeduplicationId := MessageDeduplicationId i;
     TargetArn := TargetArn i; PhoneNumber := PhoneNumber i |}.

Definition set_MessageDeduplicationId (i : PublishCommandInput) (v : jsstring) : PublishCommandInput :=
  {| TopicArn := TopicArn i; Message := Message i; Subject := Subject i;
     MessageAttributes := MessageAttributes i; MessageStructure := MessageStructure i;
     MessageGroupId := MessageGroupId i; MessageDeduplicationId := Some v;
     TargetArn := TargetArn i; PhoneNumber := PhoneNumber i |}.

(** U+2713, the check mark of the success line. *)
Definition check_mark : jsstring := [10003%N].

Section WithRuntime.
Context {R : Runtime}.

(** The four validators, in the order of the source. *)
Definition validate_inputs (config : MessageConfig) : M unit :=
  lift (validateTopicArn (topicArn config)) ;;
  lift (validateMessage (message config)) ;;
  lift (validateMessageStructure (messageStructure config)) ;;
  validateFifoTopic (topicArn config) (messageGroupId config).

(** The command input: the object literal, then the optional parameters. *)
Definition build_input (config : MessageConfig) : M PublishCommandInput :=
  let input := new_input (topicArn config) (message config) in
  input <- if_truthy (subject config)
             (fun s => core_info (js "Subject: " ++ s) ;; ret (set_Subject input s))
             (ret input) ;;
  input <- if_truthy (messageAttributes config)
             (fun s => attrs <- lift (parseMessageAttributes s) ;;
                       core_info (js "Message attributes: "
                                  ++ decimal (N.of_nat (List.length (map fst attrs)))
                                  ++ js " attribute(s)") ;;
                       ret (set_MessageAttributes input attrs))
             (ret input) ;;
  input <- if_truthy (messageStructure config)
             (fun s => core_info (js "Message structure: " ++ s) ;; ret (set_MessageStructure input s))
             (ret input) ;;
  input <- if_truthy (messageGroupId config)
             (fun s => core_info (js "Message group ID: " ++ s) ;; ret (set_MessageGroupId input s))
             (ret input) ;;
  if_truthy (messageDeduplicationId config)
    (fun s => core_info (js "Message deduplication ID: " ++ s) ;;
              ret (set_MessageDeduplicationId input s))
    (ret input).

(** The call of the client and the result built from its response. *)
Definition publish (client : SNSClient) (input : PublishCommandInput) : M MessageResult :=
  response <- client_send client input ;;
  core_info (check_mark ++ js " Message published successfully") ;;
  if_truthy (MessageId response) (fun s => core_info (js "Message ID: " ++ s)) (ret tt) ;;
  if_truthy (SequenceNumber response) (fun s => core_info (js "Sequence number: " ++ s)) (ret tt) ;;
  ret {| success := true; messageId := MessageId response;
         sequenceNumber := SequenceNumber response; error := None |}.

(** The [try] block of [publishMessage]. *)
Definition publish_body (client : SNSClient) (config : MessageConfig) : M MessageResult :=
  validate_inputs config ;;
  core_info (js "Publishing message to topic: " ++ topicArn config) ;;
  core_info (js "Message size: " ++ decimal (byteLength (message config)) ++ js " bytes") ;;
  input <- build_input config ;;
  publish client input.

Definition publishMessage (client : SNSClient) (config : MessageConfig) : M MessageResult :=
  try_catch (publish_body client config)
    (fun e =>
       let errorMessage := errorMessage e in
       core_error (js "Failed to publish message: " ++ errorMessage) ;;
       ret {| success := false; messageId := None; sequenceNumber := None;
              error := Some errorMessage |}).

End WithRuntime.

End Sns.
Import Sns.

(* ================================================================== *)
(** * The entry point of the action *)
(* ================================================================== *)

(** The function [run] of the entry point: it reads the inputs of the step,
    calls [publishMessage], and reports through outputs, log lines and the
    failure signal of [@actions/core]. *)
Module Main.

(** [core.getInput(name, { required })], as the workflow step decides it:
    the value of the input, or the error thrown for a required input that
    is not supplied. *)
Definition Inputs : Type := jsstring -> bool -> result jsstring.

(** What a run does to the outside: what [publishMessage] does (log lines
    and requests) and the log lines of [run] itself, the outputs set, and
    the failure signal. *)
Inductive action_event : Type :=
| Step : event -> action_event
| SetOutput : jsstring -> jsstring -> action_event
| SetFailed : jsstring -> action_event.

Definition A (X : Type) : Type := (list action_event * result X)%type.

Definition aret {X : Type} (x : X) : A X := ([], inr x).

Definition abind {X Y : Type} (m : A X) (f : X -> A Y) : A Y :=
  match m with
  | (t, inl e) => (t, inl e)
  | (t, inr x) => let (t', r) := f x in (t ++ t', r)
  end.

Definition athrow {X : Type} (e : thrown) : A X := ([], inl e).

Definition acatch {X : Type} (body : A X) (handler : thrown -> A X) : A X :=
  match body with
  | (t, inl e) => let (t', r) := handler e in (t ++ t', r)
  | (t, inr x) => (t, inr x)
  end.

Definition getInput (inputs : Inputs) (name : jsstring) (required : bool) : A jsstring :=
  ([], inputs name required).
Definition info (m : jsstring) : A unit := ([Step (Info m)], inr tt).
Definition setOutput (name value : jsstring) : A unit := ([SetOutput name value], inr tt).
Definition setFailed (m : jsstring) : A unit := ([SetFailed m], inr tt).

(** [await publishMessage(client, config)]. *)
Definition await {X : Type} (m : M X) : A X := (map Step (fst m), snd m).

(** [value || undefined] on a string. *)
Definition or_undefined (value : jsstring) : option jsstring :=
  if str_truthy value then Some value else None.

(** [value || fallback] on an optional string. *)
Definition or_else (value : option jsstring) (fallback : jsstring) : jsstring :=
  if_truthy value (fun s => s) fallback.

(** ['='.repeat(50)]. *)
Definition rule : jsstring := repeat 61%N 50.

Declare Scope main_scope.
Delimit Scope main_scope with main.
Notation "x <- m ;; k" := (abind m (fun x => k))
  (at level 61, m at next level, right associativity) : main_scope.
Notation "m ;; k" := (abind m (fun _ => k))
  (at level 61, right associativity) : main_scope.

Local Open Scope main_scope.

Section WithRuntime.
Context {R : Runtime}.

(** The [try] block of [run]. *)
Definition run_body (inputs : Inputs) (client : SNSClient) : A unit :=
  topicArn <- getInput inputs (js "topic-arn") true ;;
  message <- getInput inputs (js "message") true ;;
  subject <- getInput inputs (js "subject") false ;;
  messageAttributes <- getInput inputs (js "message-attributes") false ;;
  messageGroupId <- getInput inputs (js "message-group-id") false ;;
  messageDeduplicationId <- getInput inputs (js "message-deduplication-id") false ;;
  messageStructure <- getInput inputs (js "message-structure") false ;;
  info (js "AWS SNS Send Message") ;;
  info (js "Topic ARN: " ++ topicArn) ;;
  let config :=
    {| topicArn := topicArn;
       message := message;
       subject := or_undefined subject;
       messageAttributes := or_undefined messageAttributes;
       messageGroupId := or_undefined messageGroupId;
       messageDeduplicationId := or_undefined messageDeduplicationId;
       messageStructure := or_undefined messageStructure |} in
  result <- await (publishMessage client config) ;;
  (if negb (success result)
   then athrow (Error (or_else (error result) (js "Failed to publish message")))
   else aret tt) ;;
  if_truthy (messageId result) (fun s => setOutput (js "message-id") s) (aret tt) ;;
  if_truthy (sequenceNumber result) (fun s => setOutput (js "sequence-number") s) (aret tt) ;;
  info [] ;;
  info rule ;;
  info (js "Message published successfully") ;;
  if_truthy (messageId result) (fun s => info (js "Message ID: " ++ s)) (aret tt) ;;
  if_truthy (sequenceNumber result) (fun s => info (js "Sequence Number: " ++ s)) (aret tt) ;;
  info rule.

Definition run (inputs : Inputs) (client : SNSClient) : A unit :=
  acatch (run_body inputs client) (fun e => setFailed (errorMessage e)).

End WithRuntime.

End Main.
Import Main.

(* ================================================================== *)
(** * A sample runtime and sample inputs *)
(* ================================================================== *)

(** The general theorems hold for every [Runtime]. The examples run on this
    one. Its base64 decoder skips what is not in the alphabet and stops at
    the padding; it prints a number as its literal, and rejects an array or
    an object given to [Buffer.from]. The examples use none of the last
    two. *)
Module Sample.

Definition sextet (c : code_unit) : option N :=
  if (N.leb 65 c && N.leb c 90)%N then Some (c - 65)%N
  else if (N.leb 97 c && N.leb c 122)%N then Some (c - 71)%N
  else if (N.leb 48 c && N.leb c 57)%N then Some (c + 4)%N
  else if (N.eqb c 43 || N.eqb c 45)%N then Some 62%N
  else if (N.eqb c 47 || N.eqb c 95)%N then Some 63%N
  else None.

Fixpoint sextets (s : jsstring) : list N :=
  match s with
  | [] => []
  | c :: rest =>
      if N.eqb c 61 then []
      else match sextet c with
           | Some v => v :: sextets rest
           | None => sextets rest
           end
  end.

Fixpoint octets (fuel : nat) (l : list N) : list N :=
  match fuel with
  | O => []
  | S fuel' =>
      match l with
      | a :: b :: c :: d :: rest =>
          N.lor (N.shiftl a 2) (N.shiftr b 4)
          :: N.lor (N.shiftl (N.land b 15) 4) (N.shiftr c 2)
          :: N.lor (N.shiftl (N.land c 3) 6) d
          :: octets fuel' rest
      | [a; b; c] =>
          [N.lor (N.shiftl a 2) (N.shiftr b 4);
           N.lor (N.shiftl (N.land b 15) 4) (N.shiftr c 2)]
      | [a; b] => [N.lor (N.shiftl a 2) (N.shiftr b 4)]
      | _ => []
      end
  end.

Definition decode_base64 (s : jsstring) : list N :=
  let l := sextets s in octets (List.length l) l.

Definition sample_fault_message (f : fault) : jsstring :=
  match f with
  | Syntax_error _ => js "Unexpected token in JSON"
  | Keys_of_null => js "Cannot convert undefined or null to object"
  | Property_of_null name => js "Cannot read properties of null (reading '" ++ name ++ js "')"
  | Not_primitive => js "Cannot convert object to primitive value"
  | Buffer_from_invalid _ => js "The first argument must be of type string or an instance of Buffer, ArrayBuffer, or Array or an Array-like Object."
  end.

(** A number is taken to print as its literal and to be truthy unless its
    literal has no digit other than zero before the exponent. *)
Fixpoint mantissa_nonzero (s : jsstring) : bool :=
  match s with
  | [] => false
  | c :: rest =>
      if is_e c then false
      else if (N.leb 49 c && N.leb c 57)%N then true
      else mantissa_nonzero rest
  end.

#[export] Instance runtime : Runtime := {
  fault_message := sample_fault_message;
  Number_toString := fun lexeme => lexeme;
  Number_truthy := mantissa_nonzero;
  base64_decode := decode_base64;
  Buffer_from_object := fun _ => None
}.

(** A JSON text written with single quotes in place of the double ones. *)
Definition json_text (s : string) : jsstring :=
  map (fun c => if N.eqb c 39 then 34%N else c) (js s).

Definition array_text : jsstring :=
  json_text "[{'DataType':'String','StringValue':'x'}]".

Definition two_payloads_text : jsstring :=
  json_text "{'A':{'DataType':'Binary','BinaryValue':'aGk=','StringValue':'x'}}".

Definition no_value_text : jsstring :=
  json_text "{'A':{'DataType':'Number'}}".

Definition string_text : jsstring :=
  json_text "{'A':{'DataType':'String','StringValue':'x'}}".

Definition binary_text : jsstring :=
  json_text "{'B':{'DataType':'Binary','BinaryValue':'aGk='}}".

Definition no_type_text : jsstring := json_text "{'A':{'StringValue':'x'}}".

Definition bad_type_text : jsstring :=
  json_text "{'A':{'DataType':'Boolean','StringValue':'true'}}".

Definition no_binary_text : jsstring := json_text "{'A':{'DataType':'Binary','StringValue':'x'}}".

Definition eleven_text : jsstring :=
  json_text "{'a':1,'b':1,'c':1,'d':1,'e':1,'f':1,'g':1,'h':1,'i':1,'j':1,'k':1}".

(** A client that answers every request with the given response. *)
Definition answering (r : PublishCommandOutput) : SNSClient := fun _ => inr r.

(** A client that rejects every request with the given error. *)
Definition rejecting (e : thrown) : SNSClient := fun _ => inl e.

Definition config (arn body : jsstring) : MessageConfig :=
  {| topicArn := arn; message := body; subject := None; messageAttributes := None;
     messageGroupId := None; messageDeduplicationId := None; messageStructure := None |}.

Definition standard_arn : jsstring := js "arn:aws:sns:us-east-1:123456789012:my-topic".
Definition fifo_arn : jsstring := js "arn:aws:sns:us-east-1:123456789012:my-topic.fifo".

(** A message of 131073 letters e with an acute accent, two bytes each. *)
Definition accented_message : jsstring := repeat 233%N (N.to_nat 131073).

(** An ARN whose topic name spans two lines. *)
Definition two_line_arn : jsstring :=
  js "arn:aws:sns:us-east-1:123456789012:my" ++ [10%N] ++ js "topic".

Definition response_with_id : PublishCommandOutput :=
  {| MessageId := Some (js "id-1"); SequenceNumber := None |}.

Definition fifo_response : PublishCommandOutput :=
  {| MessageId := Some (js "id-2"); SequenceNumber := Some (js "10000000000000003000") |}.

(** A response that carries no message id. *)
Definition empty_response : PublishCommandOutput :=
  {| MessageId := None; SequenceNumber := None |}.

(** Standard topic, no optional field. *)
Definition plain_config : MessageConfig := config standard_arn (js "hello").

(** FIFO topic with a group id and no deduplication id. *)
Definition fifo_config : MessageConfig :=
  {| topicArn := fifo_arn; message := js "hello"; subject := None; messageAttributes := None;
     messageGroupId := Some (js "g1"); messageDeduplicationId := None;
     messageStructure := None |}.

(** FIFO topic with the empty string as group id. *)
Definition empty_group_config : MessageConfig :=
  {| topicArn := fifo_arn; message := js "hello"; subject := None; messageAttributes := None;
     messageGroupId := Some []; messageDeduplicationId := None;
     messageStructure := None |}.

(** Standard topic with a group id. *)
Definition grouped_standard_config : MessageConfig :=
  {| topicArn := standard_arn; message := js "hello"; subject := None;
     messageAttributes := None; messageGroupId := Some (js "g1");
     messageDeduplicationId := None; messageStructure := None |}.

(** Attributes with unbalanced braces. *)
Definition malformed_config : MessageConfig :=
  {| topicArn := standard_arn; message := js "hello"; subject := None;
     messageAttributes := Some (js "{"); messageGroupId := None;
     messageDeduplicationId := None; messageStructure := None |}.


(** Inputs given as a list of names and values: an input that is missing or
    empty reads as the empty string, or throws when it is required. The
    values are taken as the step trims them. *)
Definition inputs_of (given : list (jsstring * jsstring)) : Inputs :=
  fun name required =>
    match lookup name given with
    | Some (c :: value) => inr (c :: value)
    | _ =>
        if required
        then inl (Error (js "Input required and not supplied: " ++ name))
        else inr []
    end.

Definition plain_inputs : Inputs :=
  inputs_of [(js "topic-arn", standard_arn); (js "message", js "hello");
             (js "subject", []); (js "message-structure", [])].

Definition no_message_inputs : Inputs :=
  inputs_of [(js "topic-arn", standard_arn)].

(** A body of 87381 characters of three bytes each. *)
Definition wide_message : jsstring := repeat 0x20AC%N (N.to_nat 87381).

(** A configuration with the empty string as structure mode. *)
Definition empty_structure_config : MessageConfig :=
  {| topicArn := standard_arn; message := js "hello"; subject := None;
     messageAttributes := None; messageGroupId := None;
     messageDeduplicationId := None; messageStructure := Some [] |}.

(** A configuration whose attribute string is the empty object. *)
Definition empty_object_config : MessageConfig :=
  {| topicArn := standard_arn; message := js "hello"; subject := None;
     messageAttributes := Some (js "{}"); messageGroupId := None;
     messageDeduplicationId := None; messageStructure := None |}.

(** An entry of type String.Array whose value is a JSON array. *)
Definition array_value_entry : json :=
  JObject [(js "DataType", JString (js "String.Array"));
           (js "StringValue", JArray [JString (js "a"); JString (js "b")])].

(** A configuration with every optional field and two attributes. *)
Definition full_config : MessageConfig :=
  {| topicArn := fifo_arn; message := js "{}"; subject := Some (js "s");
     messageAttributes :=
       Some (json_text "{'A':{'DataType':'String','StringValue':'x'},'B':{'DataType':'Number','StringValue':'1'}}");
     messageGroupId := Some (js "g1"); messageDeduplicationId := Some (js "d1");
     messageStructure := Some (js "json") |}.

End Sample.
Import Sample.

(* ================================================================== *)
(** * Vocabulary of the specification *)
(* ================================================================== *)

Module Spec.

(** The ARN shape as the specification words it:
    [arn:aws:sns:<region>:<account-id>:<name>] with a region of lowercase
    letters, digits and hyphens, an account id of digits and a name that is
    any non-empty remainder. *)
Definition arn_as_specified (arn : jsstring) : Prop :=
  exists region account name,
    arn = js "arn:aws:sns:" ++ region ++ js ":" ++ account ++ js ":" ++ name
    /\ region <> [] /\ forallb lower_digit_hyphen region = true
    /\ account <> [] /\ forallb digit account = true
    /\ name <> [].

(** The shape the pattern of the source accepts: the name, moreover, holds
    no line terminator. *)
Definition arn_shape (arn : jsstring) : Prop :=
  exists region account name,
    arn = js "arn:aws:sns:" ++ region ++ js ":" ++ account ++ js ":" ++ name
    /\ region <> [] /\ forallb lower_digit_hyphen region = true
    /\ account <> [] /\ forallb digit account = true
    /\ name <> [] /\ existsb line_terminator name = false.

Definition arn_error (arn : jsstring) : thrown :=
  Error (js "Invalid topic ARN format: " ++ dq ++ arn ++ dq
         ++ js ". Expected format: arn:aws:sns:{region}:{account-id}:{topic-name}").

Definition size_error (actual : N) : thrown :=
  Error (js "Message size (" ++ decimal actual
         ++ js " bytes) exceeds maximum allowed size (262144 bytes / 256 KB)").

Definition structure_error (value : jsstring) : thrown :=
  Error (js "Invalid message-structure: " ++ dq ++ value ++ dq ++ js ". Must be "
         ++ dq ++ js "json" ++ dq ++ js " or left empty.").

Definition group_id_required : thrown :=
  Error (js "message-group-id is required for FIFO topics (topic ARN ends with .fifo)").

Definition group_id_ignored : jsstring :=
  js "message-group-id is provided but topic ARN does not end with .fifo. This parameter will be ignored for standard topics.".

(** The ARN denotes a FIFO topic: it ends with the literal suffix. *)
Definition is_fifo (arn : jsstring) : Prop := exists front, arn = front ++ js ".fifo".

(** An optional field is supplied when it is present and not empty. *)
Definition supplied (o : option jsstring) : Prop := exists s, o = Some s /\ s <> [].

(** The value of an optional field as the request carries it: the value
    when it is supplied, nothing otherwise. *)
Definition carried (o : option jsstring) : option jsstring :=
  match o with
  | Some (c :: s) => Some (c :: s)
  | _ => None
  end.

(** The requests handed to the client, in order. *)
Fixpoint requests (trace : list event) : list PublishCommandInput :=
  match trace with
  | [] => []
  | Send r :: rest => r :: requests rest
  | _ :: rest => requests rest
  end.

(** The two shapes of a result as the specification words them: a success
    with a message id, or a failure with an error message and no id. *)
Definition result_as_specified (r : MessageResult) : Prop :=
  (success r = true /\ messageId r <> None /\ error r = None)
  \/ (success r = false /\ error r <> None /\ messageId r = None /\ sequenceNumber r = None).

(** The failure result of [publishMessage] for an error message. *)
Definition failure (m : jsstring) : MessageResult :=
  {| success := false; messageId := None; sequenceNumber := None; error := Some m |}.

Definition failure_log (m : jsstring) : event := ErrorLog (js "Failed to publish message: " ++ m).

(** The request the specification describes for a configuration and its
    parsed attributes: the ARN, the body, the optional fields that are
    supplied, and nothing else. *)
Definition assembled (config : MessageConfig) (attrs : option attributes) : PublishCommandInput :=
  {| TopicArn := topicArn config;
     Message := message config;
     Subject := carried (subject config);
     MessageAttributes := attrs;
     MessageStructure := carried (messageStructure config);
     MessageGroupId := carried (messageGroupId config);
     MessageDeduplicationId := carried (messageDeduplicationId config);
     TargetArn := None;
     PhoneNumber := None |}.

(** The attribute pass of a configuration: it runs on a supplied attribute
    string only. *)
Definition attribute_pass {R : Runtime} (config : MessageConfig) : result (option attributes) :=
  match carried (messageAttributes config) with
  | Some s => rbind (parseMessageAttributes s) (fun attrs => inr (Some attrs))
  | None => inr None
  end.


(** ** Attributes *)

(** The property [name] of an entry value: objects alone have the fields
    the parser reads. *)
Definition field (value : json) (name : jsstring) : option json :=
  match value with
  | JObject props => lookup name props
  | _ => None
  end.

(** The data types whose payload is the textual value. *)
Definition textual (dataType : jsstring) : Prop :=
  dataType = js "String" \/ dataType = js "Number" \/ dataType = js "String.Array".

(** An optional field of the entry against the payload made of it: absent
    together, or the payload is the conversion of the field. *)
Definition converted (A : Type) (conv : json -> result A) (o : option json) (payload : option A) : Prop :=
  match o with
  | None => payload = None
  | Some v => exists x, conv v = inr x /\ payload = Some x
  end.

(** The keys and values [Object.entries] enumerates for a parsed value
    other than [null]. *)
Definition own_entries (parsed : json) : list (jsstring * json) :=
  match parsed with
  | JObject props => props
  | JArray elems => indexed elems
  | JString s => indexed (map (fun c => JString [c]) s)
  | JNull | JBool _ | JNumber _ => []
  end.

(** The entries the specification accepts, in its words: the text is a
    JSON object of at most 10 keys whose values are objects with a
    [DataType] among the four, a textual [StringValue] unless the type is
    [Binary], and a textual [BinaryValue] when it is. *)
Definition entry_as_specified (value : json) : Prop :=
  exists dataType,
    field value (js "DataType") = Some (JString dataType)
    /\ In dataType validDataTypes
    /\ (dataType <> js "Binary" -> exists s, field value (js "StringValue") = Some (JString s))
    /\ (dataType = js "Binary" -> exists s, field value (js "BinaryValue") = Some (JString s)).

Definition attributes_as_specified (text : jsstring) : Prop :=
  exists props,
    JSON.parse text = Some (JObject props)
    /\ (List.length props <= 10)%nat
    /\ Forall (fun entry => entry_as_specified (snd entry)) props.

(** An attribute carries exactly one payload, the one of its data type. *)
Definition one_payload (a : MessageAttributeValue) : Prop :=
  (textual (DataType a) -> StringValue a <> None /\ BinaryValue a = None)
  /\ (DataType a = js "Binary" -> BinaryValue a <> None /\ StringValue a = None).

Definition wrapped (e : thrown) : thrown :=
  Error (js "Failed to parse message attributes: " ++ errorMessage e).

Definition too_many (count : N) : thrown :=
  Error (js "Too many message attributes: " ++ decimal count ++ js ". Maximum allowed is 10.").

Definition missing_data_type (key : jsstring) : thrown :=
  Error (js "Missing DataType for attribute " ++ dq ++ key ++ dq
         ++ js ". Must be one of: String, Number, Binary, String.Array").

Definition invalid_data_type (shown key : jsstring) : thrown :=
  Error (js "Invalid DataType " ++ dq ++ shown ++ dq ++ js " for attribute " ++ dq ++ key ++ dq
         ++ js ". Must be one of: String, Number, Binary, String.Array").

Definition missing_string_value (key dataType : jsstring) : thrown :=
  Error (js "Missing StringValue for attribute " ++ dq ++ key ++ dq
         ++ js " with DataType " ++ dq ++ dataType ++ dq).

Definition missing_binary_value (key : jsstring) : thrown :=
  Error (js "Missing BinaryValue for attribute " ++ dq ++ key ++ dq
         ++ js " with DataType " ++ dq ++ js "Binary" ++ dq).

Section Attributes.
Context {R : Runtime}.

(** The attribute [a] is the encoding of the entry value: the value has a
    [DataType] among the four, strictly a string; it has the field its type
    requires; and each of [StringValue] and [BinaryValue] that it has is
    converted, by [String()] and by [Buffer.from], into the payload of the
    same name, the other payloads being absent. *)
Definition encodes (value : json) (a : MessageAttributeValue) : Prop :=
  field value (js "DataType") = Some (JString (DataType a))
  /\ In (DataType a) validDataTypes
  /\ (textual (DataType a) -> field value (js "StringValue") <> None)
  /\ (DataType a = js "Binary" -> field value (js "BinaryValue") <> None)
  /\ converted ToString (field value (js "StringValue")) (StringValue a)
  /\ converted Buffer_from_base64 (field value (js "BinaryValue")) (BinaryValue a).

Definition accepted (value : json) : Prop := exists a, encodes value a.

(** The loop reaches the entry [(key, value)]: every entry before it is
    accepted. *)
Definition reached (entries : list (jsstring * json)) (key : jsstring) (value : json) : Prop :=
  exists before after,
    entries = before ++ (key, value) :: after
    /\ Forall (fun entry => accepted (snd entry)) before.

(** The mapping made of the entries: a name is mapped exactly when it is
    the key of an entry and is not [__proto__], and it is mapped to the
    encoding of an entry of that name. *)
Definition maps_entries (entries : list (jsstring * json)) (attrs : attributes) : Prop :=
  (forall key a, lookup key attrs = Some a ->
     key <> js "__proto__" /\ exists value, In (key, value) entries /\ encodes value a)
  /\ (forall key value, In (key, value) entries -> key <> js "__proto__" ->
        exists a, lookup key attrs = Some a).

End Attributes.

Section Pipeline.
Context {R : Runtime}.

(** The error of the first of the four validators that fails, in the order
    ARN, size, structure, FIFO preconditions. *)
Definition validator_failure (config : MessageConfig) : option thrown :=
  match validateTopicArn (topicArn config) with
  | inl e => Some e
  | inr _ =>
      match validateMessage (message config) with
      | inl e => Some e
      | inr _ =>
          match validateMessageStructure (messageStructure config) with
          | inl e => Some e
          | inr _ =>
              match snd (validateFifoTopic (topicArn config) (messageGroupId config)) with
              | inl e => Some e
              | inr _ => None
              end
          end
      end
  end.

(** The error of the first validation that fails: the validators, then the
    attribute pass. *)
Definition first_failure (config : MessageConfig) : option thrown :=
  match validator_failure config with
  | Some e => Some e
  | None =>
      match attribute_pass config with
      | inl e => Some e
      | inr _ => None
      end
  end.

(** Some validator fails, or a supplied attribute string fails to parse. *)
Definition some_validation_fails (config : MessageConfig) : Prop :=
  (exists e, validateTopicArn (topicArn config) = inl e)
  \/ (exists e, validateMessage (message config) = inl e)
  \/ (exists e, validateMessageStructure (messageStructure config) = inl e)
  \/ (exists e, snd (validateFifoTopic (topicArn config) (messageGroupId config)) = inl e)
  \/ (exists s e, messageAttributes config = Some s /\ s <> []
                  /\ parseMessageAttributes s = inl e).

(** The configuration passes the four validators, and its attribute string,
    when one is supplied, parses to [attrs]. *)
Definition validations_pass (config : MessageConfig) (attrs : option attributes) : Prop :=
  validateTopicArn (topicArn config) = inr tt
  /\ validateMessage (message config) = inr tt
  /\ validateMessageStructure (messageStructure config) = inr tt
  /\ snd (validateFifoTopic (topicArn config) (messageGroupId config)) = inr tt
  /\ attribute_pass config = inr attrs.

End Pipeline.

(** A field of the request is included if and only if the caller supplied
    a non-empty value, and then it is that value. *)
Definition included_iff_supplied (A : Type) (field : option A) (given : option jsstring)
    (is_value : A -> jsstring -> Prop) : Prop :=
  (field <> None <-> supplied given)
  /\ (forall v, field = Some v -> exists s, given = Some s /\ is_value v s).

(** The configuration with another group id. *)
Definition with_messageGroupId (config : MessageConfig) (groupId : option jsstring) : MessageConfig :=
  {| topicArn := topicArn config; message := message config; subject := subject config;
     messageAttributes := messageAttributes config; messageGroupId := groupId;
     messageDeduplicationId := messageDeduplicationId config;
     messageStructure := messageStructure config |}.


(** ** Traces and requests *)

Definition is_info (e : event) : bool :=
  match e with
  | Info _ => true
  | _ => false
  end.

(** A trace of information lines only. *)
Definition quiet (t : list event) : Prop := forallb is_info t = true.

(** The warnings of a trace, in order. *)
Fixpoint warnings (t : list event) : list jsstring :=
  match t with
  | [] => []
  | Warning m :: rest => m :: warnings rest
  | _ :: rest => warnings rest
  end.

(** The error lines of a trace, in order. *)
Fixpoint error_logs (t : list event) : list jsstring :=
  match t with
  | [] => []
  | ErrorLog m :: rest => m :: error_logs rest
  | _ :: rest => error_logs rest
  end.

(** The warning [validateFifoTopic] emits for a configuration. *)
Definition expected_warnings (config : MessageConfig) : list jsstring :=
  if negb (endsWith (topicArn config) (js ".fifo")) && truthy (messageGroupId config)
  then [group_id_ignored] else [].

(** The configuration with its empty subject, attribute string, group id
    and deduplication id taken away; the structure mode is left as it
    is. *)
Definition without_empty (config : MessageConfig) : MessageConfig :=
  {| topicArn := topicArn config; message := message config;
     subject := carried (subject config);
     messageAttributes := carried (messageAttributes config);
     messageGroupId := carried (messageGroupId config);
     messageDeduplicationId := carried (messageDeduplicationId config);
     messageStructure := messageStructure config |}.

(** The configuration with another deduplication id. *)
Definition with_messageDeduplicationId (config : MessageConfig) (id : option jsstring) : MessageConfig :=
  {| topicArn := topicArn config; message := message config; subject := subject config;
     messageAttributes := messageAttributes config; messageGroupId := messageGroupId config;
     messageDeduplicationId := id;
     messageStructure := messageStructure config |}.

(** What holds of a request that respects the validations: a well-shaped
    ARN, a body within the size limit, no structure mode but [json], a group
    id on a FIFO topic, no optional string that is empty, at most 10
    attributes under distinct names, and the two fields the source never
    sets left unset. *)
Definition validated_request (request : PublishCommandInput) : Prop :=
  arn_shape (TopicArn request)
  /\ (byteLength (Message request) <= 262144)%N
  /\ (MessageStructure request = None \/ MessageStructure request = Some (js "json"))
  /\ (is_fifo (TopicArn request) -> supplied (MessageGroupId request))
  /\ Subject request <> Some []
  /\ MessageGroupId request <> Some []
  /\ MessageDeduplicationId request <> Some []
  /\ (forall attrs, MessageAttributes request = Some attrs ->
        (List.length attrs <= 10)%nat /\ NoDup (map fst attrs))
  /\ TargetArn request = None
  /\ PhoneNumber request = None.

(** ** The entry point *)

(** The outputs a run sets, in order. *)
Fixpoint outputs (t : list action_event) : list (jsstring * jsstring) :=
  match t with
  | [] => []
  | SetOutput name value :: rest => (name, value) :: outputs rest
  | _ :: rest => outputs rest
  end.

(** The failure signals of a run, in order. *)
Fixpoint failures (t : list action_event) : list jsstring :=
  match t with
  | [] => []
  | SetFailed m :: rest => m :: failures rest
  | _ :: rest => failures rest
  end.

(** The log lines and requests of a run, in order. *)
Fixpoint steps (t : list action_event) : list event :=
  match t with
  | [] => []
  | Step e :: rest => e :: steps rest
  | _ :: rest => steps rest
  end.

(** The configuration [run] makes of the inputs, or the error of the first
    input that cannot be read. *)
Definition read_inputs (inputs : Inputs) : result MessageConfig :=
  rbind (inputs (js "topic-arn") true) (fun topicArn =>
  rbind (inputs (js "message") true) (fun message =>
  rbind (inputs (js "subject") false) (fun subject =>
  rbind (inputs (js "message-attributes") false) (fun messageAttributes =>
  rbind (inputs (js "message-group-id") false) (fun messageGroupId =>
  rbind (inputs (js "message-deduplication-id") false) (fun messageDeduplicationId =>
  rbind (inputs (js "message-structure") false) (fun messageStructure =>
  inr {| topicArn := topicArn;
         message := message;
         subject := or_undefined subject;
         messageAttributes := or_undefined messageAttributes;
         messageGroupId := or_undefined messageGroupId;
         messageDeduplicationId := or_undefined messageDeduplicationId;
         messageStructure := or_undefined messageStructure |}))))))).

(** A stretch of a run that only logs information lines. *)
Definition logging (t : list action_event) : Prop :=
  exists lines, t = map (fun m => Step (Info m)) lines.

(** The events that set the given outputs, in order. *)
Definition setting (l : list (jsstring * jsstring)) : list action_event :=
  map (fun o => SetOutput (fst o) (snd o)) l.

(** The outputs of a successful result: each id that is present and not
    empty. *)
Definition expected_outputs (r : MessageResult) : list (jsstring * jsstring) :=
  match carried (messageId r) with
  | Some id => [(js "message-id", id)]
  | None => []
  end
  ++ match carried (sequenceNumber r) with
     | Some number => [(js "sequence-number", number)]
     | None => []
     end.

(** The message of the failure signal for a failed result: its error
    message, or the fixed text when that is missing or empty. *)
Definition failure_message (r : MessageResult) : jsstring :=
  match carried (error r) with
  | Some m => m
  | None => js "Failed to publish message"
  end.

End Spec.
Import Spec.

(* ================================================================== *)
(** * Properties of strings and patterns *)
(* ================================================================== *)

Lemma str_eqb_eq (a b : jsstring) : str_eqb a b = true <-> a = b.
Proof.
  revert b; induction a as [|x a IH]; intros [|y b]; simpl; split; intro H;
    try reflexivity; try discriminate.
  - apply andb_true_iff in H as [Hx Hr]. apply N.eqb_eq in Hx.
    apply IH in Hr. congruence.
  - injection H as -> ->. rewrite N.eqb_refl. simpl. now apply IH.
Qed.

Lemma str_eqb_refl (a : jsstring) : str_eqb a a = true.
Proof. now apply str_eqb_eq. Qed.

Lemma str_eqb_neq (a b : jsstring) : str_eqb a b = false <-> a <> b.
Proof.
  split.
  - intros H E. apply str_eqb_eq in E. congruence.
  - intro H. destruct (str_eqb a b) eqn:E; [|reflexivity].
    apply str_eqb_eq in E. contradiction.
Qed.

Lemma endsWith_iff (s suffix : jsstring) :
  endsWith s suffix = true <-> exists front, s = front ++ suffix.
Proof.
  unfold endsWith. split.
  - destruct (Nat.leb (List.length suffix) (List.length s)) eqn:Hle; [|discriminate].
    intro H. apply str_eqb_eq in H.
    set (n := (List.length s - List.length suffix)%nat) in *.
    exists (firstn n s). rewrite <- H. symmetry. apply firstn_skipn.
  - intros [front ->]. rewrite length_app.
    replace (Nat.leb _ _) with true by (symmetry; apply Nat.leb_le; lia).
    replace (List.length front + List.length suffix - List.length suffix)%nat
      with (List.length front + 0)%nat by lia.
    rewrite skipn_app, skipn_all2 by lia.
    replace (List.length front + 0 - List.length front)%nat with 0%nat by lia.
    simpl. apply str_eqb_refl.
Qed.

Lemma truthy_iff (o : option jsstring) :
  truthy o = true <-> exists s, o = Some s /\ s <> [].
Proof.
  destruct o as [[|c s]|]; simpl; split; intro H; try discriminate; try reflexivity.
  - destruct H as [s [E N]]. injection E as <-. contradiction.
  - exists (c :: s). split; [reflexivity | discriminate].
  - destruct H as [s [E _]]. discriminate.
Qed.

Lemma utf8_encode_length_bounds (n : nat) :
  forall s : jsstring,
    (List.length s <= n)%nat ->
    (List.length s <= List.length (utf8_encode s) <= 3 * List.length s)%nat.
Proof.
  induction n as [|n IH]; intros s Hn.
  - destruct s; [simpl; lia | simpl in Hn; lia].
  - destruct s as [|c rest]; [simpl; lia|].
    simpl in Hn. assert (Hrest : (List.length rest <= n)%nat) by lia.
    pose proof (IH rest Hrest) as Hr.
    cbn [utf8_encode].
    destruct (N.ltb c 128); [rewrite length_app; simpl; lia|].
    destruct (N.ltb c 2048); [rewrite length_app; simpl; lia|].
    destruct (is_high_surrogate c).
    + destruct rest as [|d rest']; [simpl; lia|].
      destruct (is_low_surrogate d).
      * simpl in Hrest. assert (Hrest' : (List.length rest' <= n)%nat) by lia.
        pose proof (IH rest' Hrest') as Hr'.
        rewrite length_app. simpl. lia.
      * rewrite length_app. change (List.length replacement) with 3%nat.
        cbn [List.length] in Hr |- *. lia.
    + destruct (is_low_surrogate c); rewrite length_app; simpl; lia.
Qed.

(** The byte length is at least the number of code units and at most three
    times as much. *)
Lemma byteLength_bounds (s : jsstring) :
  (str_length s <= byteLength s <= 3 * str_length s)%N.
Proof.
  unfold str_length, byteLength.
  pose proof (@utf8_encode_length_bounds (List.length s) s (Nat.le_refl _)). lia.
Qed.

(** On ASCII text the byte length is the length. *)
Lemma byteLength_ascii (s : jsstring) :
  forallb (fun c => N.ltb c 128) s = true -> byteLength s = str_length s.
Proof.
  unfold byteLength, str_length. intro H. f_equal.
  induction s as [|c rest IH]; [reflexivity|].
  simpl in H. apply andb_true_iff in H as [Hc Hrest].
  cbn [utf8_encode]. rewrite Hc. simpl. f_equal. now apply IH.
Qed.

Module RegexFacts.

Lemma lang_void s : ~ lang Void s.
Proof. intro H. inversion H. Qed.

Lemma lang_eps s : lang Eps s <-> s = [].
Proof. split; intro H; [now inversion H | subst; constructor]. Qed.

Lemma lang_class p s : lang (Class p) s <-> exists c, s = [c] /\ p c = true.
Proof.
  split.
  - intro H. inversion H; subst. eauto.
  - intros [c [-> Hp]]. now constructor.
Qed.

Lemma lang_seq a b s :
  lang (Seq a b) s <-> exists s1 s2, s = s1 ++ s2 /\ lang a s1 /\ lang b s2.
Proof.
  split.
  - intro H. inversion H; subst. eauto.
  - intros [s1 [s2 [-> [Ha Hb]]]]. now constructor.
Qed.

Lemma lang_alt a b s : lang (Alt a b) s <-> lang a s \/ lang b s.
Proof.
  split.
  - intro H. inversion H; subst; auto.
  - intros [H|H]; [now apply L_alt_l | now apply L_alt_r].
Qed.

(** A non-empty word of a starred pattern starts with a non-empty word of
    the pattern. *)
Lemma lang_star_cons a c s :
  lang (Star a) (c :: s) ->
  exists s1 s2, s = s1 ++ s2 /\ lang a (c :: s1) /\ lang (Star a) s2.
Proof.
  intro H. remember (Star a) as r eqn:Er. remember (c :: s) as w eqn:Ew.
  induction H as [ | | | | | |a' u v Hu _ Hv IHv]; try discriminate.
  injection Er as ->.
  destruct u as [|x u].
  - simpl in Ew. apply IHv; [reflexivity | assumption].
  - simpl in Ew. injection Ew as -> <-. exists u, v. auto.
Qed.

Lemma nullable_lang r : nullable r = true <-> lang r [].
Proof.
  induction r as [ | |p|a IHa b IHb|a IHa b IHb|a IHa]; simpl.
  - split; [discriminate | intro H; inversion H].
  - split; [constructor | reflexivity].
  - split; [discriminate | intro H; inversion H].
  - rewrite andb_true_iff, IHa, IHb, lang_seq. split.
    + intros [Ha Hb]. exists [], []. auto.
    + intros [s1 [s2 [E [Ha Hb]]]]. symmetry in E.
      apply app_eq_nil in E as [-> ->]. auto.
  - now rewrite orb_true_iff, IHa, IHb, lang_alt.
  - split; [constructor | reflexivity].
Qed.

Lemma deriv_lang c r : forall s, lang (deriv c r) s <-> lang r (c :: s).
Proof.
  induction r as [ | |p|a IHa b IHb|a IHa b IHb|a IHa]; intro s; simpl.
  - split; intro H; inversion H.
  - split; intro H; inversion H.
  - destruct (p c) eqn:Hp.
    + rewrite lang_eps, lang_class. split.
      * intros ->. eauto.
      * intros [x [E _]]. now injection E.
    + rewrite lang_class. split.
      * intro H; inversion H.
      * intros [x [E Hx]]. injection E as <- _. congruence.
  - assert (Hseq : lang (Seq (deriv c a) b) s <->
                   exists s1 s2, s = s1 ++ s2 /\ lang a (c :: s1) /\ lang b s2).
    { rewrite lang_seq. split; intros [s1 [s2 [E [Ha Hb]]]]; exists s1, s2;
        (split; [assumption | split; [now apply IHa | assumption]]). }
    rewrite (lang_seq a b (c :: s)).
    destruct (nullable a) eqn:Hn.
    + rewrite lang_alt, Hseq, IHb. split.
      * intros [[s1 [s2 [-> [Ha Hb]]]] | Hb].
        -- exists (c :: s1), s2. auto.
        -- exists [], (c :: s). apply nullable_lang in Hn. auto.
      * intros [[|x s1] [s2 [E [Ha Hb]]]]; simpl in E.
        -- subst s2. now right.
        -- injection E as <- ->. left. eauto.
    + rewrite Hseq. split.
      * intros [s1 [s2 [-> [Ha Hb]]]]. exists (c :: s1), s2. auto.
      * intros [[|x s1] [s2 [E [Ha Hb]]]]; simpl in E.
        -- apply nullable_lang in Ha. congruence.
        -- injection E as <- ->. eauto.
  - now rewrite !lang_alt, IHa, IHb.
  - rewrite lang_seq. split.
    + intros [s1 [s2 [-> [Ha Hs]]]]. apply IHa in Ha.
      change (c :: s1 ++ s2) with ((c :: s1) ++ s2). now constructor.
    + intro H. apply lang_star_cons in H as [s1 [s2 [-> [Ha Hs]]]].
      exists s1, s2. split; [reflexivity | split; [now apply IHa | assumption]].
Qed.

(** The matcher decides the language of the pattern. *)
Lemma matches_lang r s : matches r s = true <-> lang r s.
Proof.
  revert r; induction s as [|c s IH]; intro r; simpl.
  - apply nullable_lang.
  - now rewrite IH, deriv_lang.
Qed.

Lemma lang_lit l s : lang (Lit l) s <-> s = l.
Proof.
  revert s; induction l as [|c l IH]; intro s; simpl.
  - apply lang_eps.
  - rewrite lang_seq. split.
    + intros [s1 [s2 [-> [H1 H2]]]]. apply lang_class in H1 as [x [-> Hx]].
      apply N.eqb_eq in Hx. apply IH in H2. subst. reflexivity.
    + intros ->. exists [c], l. split; [reflexivity|]. split.
      * constructor. apply N.eqb_refl.
      * now apply IH.
Qed.

Lemma lang_star_class p s : lang (Star (Class p)) s <-> forallb p s = true.
Proof.
  split.
  - intro H. remember (Star (Class p)) as r eqn:Er.
    induction H as [ | | | | | |a u v Hu _ Hv IHv]; try discriminate.
    + reflexivity.
    + injection Er as ->. apply lang_class in Hu as [c [-> Hc]].
      simpl. rewrite Hc. now apply IHv.
  - induction s as [|c s IH]; simpl; intro H.
    + constructor.
    + apply andb_true_iff in H as [Hc Hs].
      change (c :: s) with ([c] ++ s). constructor; [now constructor | auto].
Qed.

Lemma lang_plus_class p s :
  lang (Plus (Class p)) s <-> s <> [] /\ forallb p s = true.
Proof.
  unfold Plus. rewrite lang_seq. split.
  - intros [s1 [s2 [-> [H1 H2]]]]. apply lang_class in H1 as [c [-> Hc]].
    apply lang_star_class in H2. simpl. rewrite Hc, H2. split; [discriminate | reflexivity].
  - intros [Hne H]. destruct s as [|c s]; [contradiction|].
    simpl in H. apply andb_true_iff in H as [Hc Hs].
    exists [c], s. split; [reflexivity|]. split; [now constructor | now apply lang_star_class].
Qed.

End RegexFacts.

(* ================================================================== *)
(** * The validators *)
(* ================================================================== *)

Import RegexFacts.

Lemma forallb_dot (name : jsstring) :
  forallb dot name = true <-> existsb line_terminator name = false.
Proof.
  induction name as [|c name IH]; simpl; [tauto|].
  unfold dot at 1. rewrite andb_true_iff, orb_false_iff, IH.
  destruct (line_terminator c); simpl; intuition congruence.
Qed.

Lemma arnPattern_lang (arn : jsstring) : lang arnPattern arn <-> arn_shape arn.
Proof.
  unfold arnPattern, arn_shape. split.
  - intro H.
    apply lang_seq in H as (p & r1 & -> & Hp & H). apply lang_lit in Hp as ->.
    apply lang_seq in H as (region & r2 & -> & Hr & H). apply lang_plus_class in Hr as [Hr1 Hr2].
    apply lang_seq in H as (c1 & r3 & -> & Hc1 & H). apply lang_lit in Hc1 as ->.
    apply lang_seq in H as (account & r4 & -> & Ha & H). apply lang_plus_class in Ha as [Ha1 Ha2].
    apply lang_seq in H as (c2 & name & -> & Hc2 & H). apply lang_lit in Hc2 as ->.
    apply lang_plus_class in H as [Hn1 Hn2].
    exists region, account, name. repeat split; auto. now apply forallb_dot.
  - intros (region & account & name & -> & Hr1 & Hr2 & Ha1 & Ha2 & Hn1 & Hn2).
    apply forallb_dot in Hn2.
    apply L_seq; [now apply lang_lit|].
    apply L_seq; [now apply lang_plus_class|].
    apply L_seq; [now apply lang_lit|].
    apply L_seq; [now apply lang_plus_class|].
    apply L_seq; [now apply lang_lit|].
    now apply lang_plus_class.
Qed.

Lemma validateTopicArn_cases (arn : jsstring) :
  (test_anchored arnPattern arn = true /\ validateTopicArn arn = inr tt)
  \/ (test_anchored arnPattern arn = false /\ validateTopicArn arn = inl (arn_error arn)).
Proof.
  unfold validateTopicArn, arn_error, quoted.
  destruct (test_anchored arnPattern arn); [left | right]; split; try reflexivity.
  simpl negb. cbv iota. do 2 f_equal. rewrite <- !app_assoc. reflexivity.
Qed.

(** C3, as amended. [validateTopicArn] succeeds if and only if the string
    is [arn:aws:sns:<region>:<account-id>:<name>] where the region is one
    or more lowercase letters, digits or hyphens, the account id is one or
    more digits, and the name is a non-empty remainder that holds no line
    terminator (LF, CR, U+2028, U+2029); on mismatch it fails with the
    error that names the offending ARN and the expected format. *)
Theorem validateTopicArn_accepts_arn_shape (arn : jsstring) :
  (validateTopicArn arn = inr tt <-> arn_shape arn)
  /\ (validateTopicArn arn = inr tt \/ validateTopicArn arn = inl (arn_error arn)).
Proof.
  rewrite <- arnPattern_lang, <- matches_lang.
  destruct (validateTopicArn_cases arn) as [[Ht ->] | [Ht ->]];
    unfold test_anchored in Ht; rewrite Ht; split; auto.
  - tauto.
  - split; discriminate.
Qed.

(** C3, as stated, fails: the name is not any non-empty remainder. The ARN
    [two_line_arn] has the specified shape, with the name made of [my], a
    line feed and [topic], and [validateTopicArn] rejects it. *)
Lemma validateTopicArn_rejects_line_feed :
  arn_as_specified two_line_arn /\ validateTopicArn two_line_arn <> inr tt.
Proof.
  split.
  - exists (js "us-east-1"), (js "123456789012"), (js "my" ++ [10%N] ++ js "topic").
    repeat split; try discriminate; reflexivity.
  - vm_compute. discriminate.
Qed.

Example validateTopicArn_standard : validateTopicArn standard_arn = inr tt.
Proof. reflexivity. Qed.

Example validateTopicArn_fifo : validateTopicArn fifo_arn = inr tt.
Proof. reflexivity. Qed.

Example validateTopicArn_no_prefix :
  validateTopicArn (js "sns:us-east-1:123:x") = inl (arn_error (js "sns:us-east-1:123:x")).
Proof. reflexivity. Qed.

(** C4. [validateMessage] succeeds if and only if the UTF-8 byte length of
    the body is at most 262144; beyond the limit the error reports the
    actual and the maximum byte counts. The byte length decides, not the
    character count: [accented_message] has 131073 characters, encodes to
    262146 bytes and is rejected. *)
Theorem validateMessage_byte_limit :
  (forall message : jsstring,
     (validateMessage message = inr tt <-> (byteLength message <= 262144)%N)
     /\ (validateMessage message = inr tt
         \/ validateMessage message = inl (size_error (byteLength message))))
  /\ (str_length accented_message = 131073%N
      /\ validateMessage accented_message = inl (size_error 262146)).
Proof.
  split.
  - intro m. unfold validateMessage, size_error.
    change maxSizeBytes with 262144%N.
    destruct (N.ltb_spec 262144 (byteLength m)) as [Hlt | Hle].
    + split.
      * split; [discriminate | lia].
      * right. do 2 f_equal; rewrite <- ?app_assoc; reflexivity.
    + split; [|now left]. split; [intros _; exact Hle | reflexivity].
  - split; vm_compute; reflexivity.
Qed.

Lemma validateMessageStructure_other (s : jsstring) :
  s <> js "json" -> validateMessageStructure (Some s) = inl (structure_error s).
Proof.
  intro H. apply str_eqb_neq in H. unfold validateMessageStructure, structure_error, quoted.
  rewrite H. simpl negb. cbv iota. do 2 f_equal. rewrite <- !app_assoc. reflexivity.
Qed.

(** C9. [validateMessageStructure] succeeds when the value is absent or is
    exactly [json], and fails with the error naming the offending value for
    any other present value. *)
Theorem validateMessageStructure_json_or_absent (messageStructure : option jsstring) :
  (validateMessageStructure messageStructure = inr tt
   <-> messageStructure = None \/ messageStructure = Some (js "json"))
  /\ (forall value, messageStructure = Some value -> value <> js "json" ->
      validateMessageStructure messageStructure = inl (structure_error value)).
Proof.
  split.
  - destruct messageStructure as [s|]; [|simpl; tauto].
    destruct (str_eqb s (js "json")) eqn:E.
    + apply str_eqb_eq in E. subst. simpl. split; auto.
    + apply str_eqb_neq in E. rewrite (validateMessageStructure_other E). split.
      * discriminate.
      * intros [H|H]; [discriminate | injection H as ->; contradiction].
  - intros value -> Hne. now apply validateMessageStructure_other.
Qed.

Lemma xml_structure_rejected :
  validateMessageStructure (Some (js "xml")) = inl (structure_error (js "xml")).
Proof.
  apply (proj2 (validateMessageStructure_json_or_absent (Some (js "xml"))) (js "xml")).
  - reflexivity.
  - discriminate.
Defined.

(* ================================================================== *)
(** * The orchestration *)
(* ================================================================== *)

Lemma requests_app (t u : list event) : requests (t ++ u) = requests t ++ requests u.
Proof.
  induction t as [|ev t IH]; [reflexivity|].
  destruct ev; simpl; now rewrite ?IH.
Qed.

Lemma bind_inr (A B : Type) (t : list event) (a : A) (f : A -> M B) :
  bind (t, inr a) f = (t ++ fst (f a), snd (f a)).
Proof. simpl. now destruct (f a). Qed.

Lemma bind_inl (A B : Type) (t : list event) (e : thrown) (f : A -> M B) :
  bind (t, inl e) f = (t, inl e).
Proof. reflexivity. Qed.

Lemma carried_truthy (o : option jsstring) :
  carried o = if truthy o then o else None.
Proof. now destruct o as [[|c s]|]. Qed.

Lemma carried_supplied (o : option jsstring) : carried o <> None <-> supplied o.
Proof.
  unfold supplied. destruct o as [[|c s]|]; simpl; split; intro H;
    try contradiction; try discriminate.
  - destruct H as [s [E Hs]]. injection E as <-. contradiction.
  - exists (c :: s). split; [reflexivity | discriminate].
  - destruct H as [s [E _]]. discriminate.
Qed.

Lemma validateFifoTopic_cases (arn : jsstring) (groupId : option jsstring) :
  (endsWith arn (js ".fifo") = true /\ truthy groupId = false
   /\ validateFifoTopic arn groupId = ([], inl group_id_required))
  \/ (endsWith arn (js ".fifo") = false /\ truthy groupId = true
      /\ validateFifoTopic arn groupId = ([Warning group_id_ignored], inr tt))
  \/ (endsWith arn (js ".fifo") = truthy groupId
      /\ validateFifoTopic arn groupId = ([], inr tt)).
Proof.
  unfold validateFifoTopic.
  destruct (endsWith arn (js ".fifo")), (truthy groupId); simpl; auto.
Qed.

Section Orchestration.
Context {R : Runtime}.

(** The validators run in the order ARN, size, structure, FIFO, and the
    first failure is the outcome. *)
Lemma validate_inputs_first_failure (config : MessageConfig) :
  match validateTopicArn (topicArn config) with
  | inl e => validate_inputs config = ([], inl e)
  | inr _ =>
      match validateMessage (message config) with
      | inl e => validate_inputs config = ([], inl e)
      | inr _ =>
          match validateMessageStructure (messageStructure config) with
          | inl e => validate_inputs config = ([], inl e)
          | inr _ =>
              validate_inputs config
              = validateFifoTopic (topicArn config) (messageGroupId config)
          end
      end
  end.
Proof.
  unfold validate_inputs.
  destruct (validateTopicArn _) as [e|[]]; [reflexivity|].
  destruct (validateMessage _) as [e|[]]; [reflexivity|].
  destruct (validateMessageStructure _) as [e|[]]; [reflexivity|].
  unfold lift. rewrite !bind_inr. simpl.
  now destruct (validateFifoTopic _ _).
Qed.

(** The optional parameters never reach the client, and the input they
    build is the one the specification describes. *)
Lemma build_input_outcome (config : MessageConfig) :
  exists t, requests t = []
    /\ match attribute_pass config with
       | inl e => build_input config = (t, inl e)
       | inr attrs => build_input config = (t, inr (assembled config attrs))
       end.
Proof.
  destruct config as [arn body subj attrs gid did str].
  unfold build_input, attribute_pass, assembled. simpl.
  destruct attrs as [[|c s]|]; simpl;
    [ | destruct (parseMessageAttributes (c :: s)) as [e|parsed]; simpl | ];
    destruct subj as [[|? ?]|], str as [[|? ?]|], gid as [[|? ?]|], did as [[|? ?]|];
    simpl; eexists; (split; [|reflexivity]); reflexivity.
Qed.

Lemma publish_outcome (client : SNSClient) (input : PublishCommandInput) :
  exists t, requests t = [input]
    /\ match client input with
       | inl e => publish client input = (t, inl e)
       | inr response =>
           publish client input
           = (t, inr {| success := true; messageId := MessageId response;
                        sequenceNumber := SequenceNumber response; error := None |})
       end.
Proof.
  unfold publish, client_send.
  destruct (client input) as [e|[mid seq]].
  - exists [Send input]. split; reflexivity.
  - destruct mid as [[|? ?]|], seq as [[|? ?]|]; simpl;
      eexists; (split; [|reflexivity]); reflexivity.
Qed.

(** Every run of [publishMessage], by the first step that fails. *)
Lemma publishMessage_outcome (client : SNSClient) (config : MessageConfig) :
  exists t,
    match validate_inputs config with
    | (w, inl e) =>
        publishMessage client config
        = (w ++ [failure_log (errorMessage e)], inr (failure (errorMessage e)))
    | (w, inr _) =>
        match attribute_pass config with
        | inl e =>
            requests t = []
            /\ publishMessage client config = (w ++ t, inr (failure (errorMessage e)))
        | inr attrs =>
            requests t = [assembled config attrs]
            /\ match client (assembled config attrs) with
               | inl e =>
                   publishMessage client config = (w ++ t, inr (failure (errorMessage e)))
               | inr response =>
                   publishMessage client config
                   = (w ++ t, inr {| success := true; messageId := MessageId response;
                                     sequenceNumber := SequenceNumber response;
                                     error := None |})
               end
        end
    end.
Proof.
  unfold publishMessage, publish_body.
  destruct (validate_inputs config) as [w [e|u]].
  - exists []. reflexivity.
  - rewrite bind_inr.
    destruct (build_input_outcome config) as [tb [Hb Hbuild]].
    destruct (attribute_pass config) as [e|attrs].
    + rewrite Hbuild. simpl. rewrite <- ?app_assoc.
      eexists. split; [|reflexivity]. simpl. rewrite requests_app, Hb. reflexivity.
    + rewrite Hbuild.
      destruct (publish_outcome client (assembled config attrs)) as [tp [Hp Hpub]].
      destruct (client (assembled config attrs)) as [e|response].
      * simpl. rewrite Hpub. simpl. rewrite <- ?app_assoc.
        eexists. split; [|reflexivity].
        simpl. rewrite !requests_app, Hb, Hp. reflexivity.
      * simpl. rewrite Hpub. simpl. rewrite <- ?app_assoc.
        eexists. split; [|reflexivity].
        simpl. rewrite !requests_app, Hb, Hp. reflexivity.
Qed.

End Orchestration.

Section Claims.
Context {R : Runtime}.

Lemma validator_failure_inputs (config : MessageConfig) :
  match validator_failure config with
  | Some e => validate_inputs config = ([], inl e)
  | None => exists w, validate_inputs config = (w, inr tt) /\ requests w = []
  end.
Proof.
  pose proof (validate_inputs_first_failure config) as H.
  unfold validator_failure.
  destruct (validateTopicArn _) as [e|[]]; [assumption|].
  destruct (validateMessage _) as [e|[]]; [assumption|].
  destruct (validateMessageStructure _) as [e|[]]; [assumption|].
  rewrite H.
  destruct (validateFifoTopic_cases (topicArn config) (messageGroupId config))
    as [(_ & _ & ->) | [(_ & _ & ->) | (_ & ->)]]; simpl; eauto.
Qed.

Lemma some_validation_fails_first (config : MessageConfig) :
  some_validation_fails config -> exists e, first_failure config = Some e.
Proof.
  unfold some_validation_fails, first_failure, validator_failure, attribute_pass.
  intros [[e H] | [[e H] | [[e H] | [[e H] | (s & e & Hs & Hne & H)]]]].
  - rewrite H. eauto.
  - destruct (validateTopicArn _); [eauto|]. rewrite H. eauto.
  - destruct (validateTopicArn _); [eauto|]. destruct (validateMessage _); [eauto|].
    rewrite H. eauto.
  - destruct (validateTopicArn _); [eauto|]. destruct (validateMessage _); [eauto|].
    destruct (validateMessageStructure _); [eauto|]. rewrite H. eauto.
  - destruct (validateTopicArn _); [eauto|]. destruct (validateMessage _); [eauto|].
    destruct (validateMessageStructure _); [eauto|].
    destruct (snd (validateFifoTopic _ _)); [eauto|].
    rewrite Hs. destruct s as [|c s]; [contradiction|]. simpl. rewrite H. simpl. eauto.
Qed.

(** The run of [publishMessage] when some validation fails. *)
Lemma first_failure_outcome (client : SNSClient) (config : MessageConfig) (e : thrown) :
  first_failure config = Some e ->
  exists t,
    publishMessage client config = (t, inr (failure (errorMessage e)))
    /\ requests t = []
    /\ (validator_failure config = Some e -> t = [failure_log (errorMessage e)]).
Proof.
  unfold first_failure. intro He.
  pose proof (validator_failure_inputs config) as Hv.
  destruct (publishMessage_outcome client config) as [t Hout].
  destruct (validator_failure config) as [e'|].
  - injection He as ->. rewrite Hv in Hout. simpl in Hout.
    exists [failure_log (errorMessage e)]. repeat split; auto.
  - destruct Hv as [w [Hw Hreq]]. rewrite Hw in Hout.
    destruct (attribute_pass config) as [e'|attrs]; [|discriminate].
    injection He as ->. destruct Hout as [Ht Hout].
    exists (w ++ t). repeat split; auto.
    + now rewrite requests_app, Hreq, Ht.
    + discriminate.
Qed.

(** C1. If any of the four validators fails, or the parse of a supplied
    attribute string fails, [publishMessage] returns the failure result of
    the first failing step, in the order ARN, size, structure, FIFO
    preconditions, attributes, and hands no request to the client. When the
    failing step is a validator, nothing ran after it: the only thing
    logged is the failure. *)
Theorem validation_failure_short_circuits (client : SNSClient) (config : MessageConfig) :
  some_validation_fails config ->
  exists e t,
    first_failure config = Some e
    /\ publishMessage client config = (t, inr (failure (errorMessage e)))
    /\ requests t = []
    /\ (validator_failure config = Some e -> t = [failure_log (errorMessage e)]).
Proof.
  intro Hfail. apply some_validation_fails_first in Hfail as [e He].
  destruct (first_failure_outcome client config He) as (t & Hpub & Hreq & Hlog).
  exists e, t. auto.
Qed.

(** C2, as amended. [publishMessage] always returns a [MessageResult] and
    throws nothing, whatever the client does. The result has one of two
    shapes: a success without an error message, after exactly one request,
    carrying the message id and the sequence number exactly as the response
    of the client had them (each present only when the response included
    it); or a failure carrying an error message and neither id. A rejection
    by the client gives the failure with the message of the rejection. *)
Theorem publishMessage_result_shape (client : SNSClient) (config : MessageConfig) :
  exists t r,
    publishMessage client config = (t, inr r)
    /\ ((success r = true /\ error r = None
         /\ exists request response,
              requests t = [request] /\ client request = inr response
              /\ messageId r = MessageId response
              /\ sequenceNumber r = SequenceNumber response)
        \/ (success r = false /\ messageId r = None /\ sequenceNumber r = None
            /\ exists m, error r = Some m
                 /\ forall request e,
                      requests t = [request] -> client request = inl e -> m = errorMessage e)).
Proof.
  destruct (publishMessage_outcome client config) as [t Hout].
  pose proof (validator_failure_inputs config) as Hv.
  destruct (validator_failure config) as [e|].
  - rewrite Hv in Hout. simpl in Hout. rewrite Hout.
    do 2 eexists. split; [reflexivity|]. right. simpl. repeat split.
    eexists. split; [reflexivity|]. intros request e' Hreq. discriminate.
  - destruct Hv as [w [Hw Hreq]]. rewrite Hw in Hout.
    destruct (attribute_pass config) as [e|attrs].
    + destruct Hout as [Ht ->]. do 2 eexists. split; [reflexivity|]. right. simpl.
      repeat split. eexists. split; [reflexivity|].
      intros request e'. rewrite requests_app, Hreq, Ht. discriminate.
    + destruct Hout as [Ht Hout].
      destruct (client (assembled config attrs)) as [e|response] eqn:Hc; rewrite Hout.
      * do 2 eexists. split; [reflexivity|]. right. simpl. repeat split.
        eexists. split; [reflexivity|].
        intros request e'. rewrite requests_app, Hreq, Ht. simpl.
        intros [= <-]. rewrite Hc. now intros [= <-].
      * do 2 eexists. split; [reflexivity|]. left. simpl. repeat split.
        exists (assembled config attrs), response.
        rewrite requests_app, Hreq, Ht. auto.
Qed.

Lemma requests_of_passing (client : SNSClient) (config : MessageConfig)
    (attrs : option attributes) :
  validations_pass config attrs ->
  requests (fst (publishMessage client config)) = [assembled config attrs].
Proof.
  intros (Harn & Hsize & Hstr & Hfifo & Hattrs).
  destruct (publishMessage_outcome client config) as [t Hout].
  pose proof (validator_failure_inputs config) as Hv.
  unfold validator_failure in Hv. rewrite Harn, Hsize, Hstr, Hfifo in Hv.
  destruct Hv as [w [Hw Hreq]]. rewrite Hw, Hattrs in Hout.
  destruct Hout as [Ht Hout].
  destruct (client (assembled config attrs)); rewrite Hout; simpl;
    now rewrite requests_app, Hreq, Ht.
Qed.

(** C7. For a configuration that passes all validations, exactly one
    request is handed to the client. It holds the topic ARN and the message
    body; the subject, the structure mode, the group id and the
    deduplication id are each included if and only if the caller supplied a
    non-empty value, and then with that value; the attributes are included
    if and only if an attribute string was supplied, and are then its
    parse; no other field is populated. *)
Theorem assembled_request_fields (client : SNSClient) (config : MessageConfig)
    (attrs : option attributes) :
  validations_pass config attrs ->
  exists request,
    requests (fst (publishMessage client config)) = [request]
    /\ request = assembled config attrs
    /\ TopicArn request = topicArn config
    /\ Message request = message config
    /\ included_iff_supplied (Subject request) (subject config) eq
    /\ included_iff_supplied (MessageAttributes request) (messageAttributes config)
         (fun parsed text => parseMessageAttributes text = inr parsed)
    /\ included_iff_supplied (MessageStructure request) (messageStructure config) eq
    /\ included_iff_supplied (MessageGroupId request) (messageGroupId config) eq
    /\ included_iff_supplied (MessageDeduplicationId request) (messageDeduplicationId config) eq
    /\ TargetArn request = None
    /\ PhoneNumber request = None.
Proof.
  intros Hpass. pose proof Hpass as (Harn & Hsize & Hstr & Hfifo & Hattrs).
  assert (Hcarried : forall o, included_iff_supplied (carried o) o eq).
  { intro o. split; [apply carried_supplied|].
    intros v Hv. exists v. split; [|reflexivity].
    destruct o as [[|c s]|]; simpl in Hv; congruence. }
  exists (assembled config attrs). repeat split; try apply Hcarried.
  - now apply requests_of_passing.
  - simpl. unfold attribute_pass in Hattrs. intro Hne.
    apply carried_supplied. destruct (carried (messageAttributes config)); congruence.
  - simpl. unfold attribute_pass in Hattrs. intro Hs.
    apply carried_supplied in Hs.
    destruct (carried (messageAttributes config)) as [s|]; [|contradiction].
    destruct (parseMessageAttributes s); simpl in Hattrs; congruence.
  - simpl. unfold attribute_pass in Hattrs. intros v ->.
    destruct (messageAttributes config) as [[|c s]|]; simpl in Hattrs; try discriminate.
    exists (c :: s). split; [reflexivity|].
    destruct (parseMessageAttributes (c :: s)); simpl in Hattrs; congruence.
Qed.

Lemma is_fifo_endsWith (arn : jsstring) : endsWith arn (js ".fifo") = true <-> is_fifo arn.
Proof. apply endsWith_iff. Qed.

Lemma truthy_supplied (o : option jsstring) : truthy o = true <-> supplied o.
Proof. apply truthy_iff. Qed.

(** C5. [validateFifoTopic] fails exactly when the ARN ends with [.fifo] and
    no group id is supplied (a supplied group id is a non-empty one), and
    its error is the one stating that the group id is required. When the
    ARN does not end with [.fifo] and a group id is supplied, it does not
    fail and emits one warning; the request of a configuration that passes
    all validations still carries the group id. *)
Theorem validateFifoTopic_requires_group_id (arn : jsstring) (groupId : option jsstring) :
  ((exists e, snd (validateFifoTopic arn groupId) = inl e)
   <-> is_fifo arn /\ ~ supplied groupId)
  /\ (forall e, snd (validateFifoTopic arn groupId) = inl e -> e = group_id_required)
  /\ (~ is_fifo arn -> supplied groupId ->
      validateFifoTopic arn groupId = ([Warning group_id_ignored], inr tt)
      /\ forall client config attrs,
           topicArn config = arn -> messageGroupId config = groupId ->
           validations_pass config attrs ->
           exists request,
             requests (fst (publishMessage client config)) = [request]
             /\ MessageGroupId request = groupId).
Proof.
  rewrite <- is_fifo_endsWith, <- truthy_supplied.
  destruct (validateFifoTopic_cases arn groupId)
    as [(Hf & Hg & Hv) | [(Hf & Hg & Hv) | (Hfg & Hv)]]; rewrite Hv; cbn [snd].
  - rewrite Hf, Hg. split; [|split].
    + split; [intros _; split; [reflexivity | discriminate] | eauto].
    + now intros e [= <-].
    + intros H. now contradiction H.
  - rewrite Hf, Hg. split; [|split].
    + split; [intros [e He]; discriminate | intros [H _]; discriminate].
    + intros e He. discriminate.
    + intros _ _. split; [reflexivity|].
      intros client config attrs Harn Hgid Hpass.
      exists (assembled config attrs). split; [now apply requests_of_passing|]. simpl.
      rewrite carried_truthy, Hgid, Hg. reflexivity.
  - rewrite Hfg. split; [|split].
    + split; [intros [e He]; discriminate | intros [H1 H2]; contradiction].
    + intros e He. discriminate.
    + intros H1 H2. contradiction.
Qed.

Lemma publishMessage_empty_group_id (client : SNSClient) (config : MessageConfig) :
  messageGroupId config = Some [] ->
  publishMessage client config = publishMessage client (with_messageGroupId config None).
Proof.
  destruct config as [arn body subj attrs gid did str]. simpl. intros ->. reflexivity.
Qed.

(** C10. For a topic ARN that ends with [.fifo], [validateFifoTopic] with
    the empty string as group id fails with the group-id-required error,
    exactly as with no group id. Hence [publishMessage] on a configuration
    with that ARN and the empty group id behaves as on the configuration
    with no group id: it fails without a request to the client, and with
    the group-id-required error once the ARN, size and structure validators
    have passed. *)
Theorem empty_group_id_is_absent (arn : jsstring) :
  is_fifo arn ->
  validateFifoTopic arn (Some []) = ([], inl group_id_required)
  /\ validateFifoTopic arn (Some []) = validateFifoTopic arn None
  /\ forall client config,
       topicArn config = arn -> messageGroupId config = Some [] ->
       publishMessage client config
       = publishMessage client (with_messageGroupId config None)
       /\ (exists t m, publishMessage client config = (t, inr (failure m)) /\ requests t = [])
       /\ (validateTopicArn arn = inr tt ->
           validateMessage (message config) = inr tt ->
           validateMessageStructure (messageStructure config) = inr tt ->
           publishMessage client config
           = ([failure_log (errorMessage group_id_required)],
              inr (failure (errorMessage group_id_required)))).
Proof.
  intro Hfifo. apply is_fifo_endsWith in Hfifo.
  assert (Hv : validateFifoTopic arn (Some []) = ([], inl group_id_required)).
  { unfold validateFifoTopic. rewrite Hfifo. reflexivity. }
  split; [exact Hv|]. split.
  { unfold validateFifoTopic. rewrite Hfifo. reflexivity. }
  intros client config Harn Hgid. split; [now apply publishMessage_empty_group_id|].
  assert (Hsome : some_validation_fails config).
  { right. right. right. left. exists group_id_required. now rewrite Harn, Hgid, Hv. }
  apply some_validation_fails_first in Hsome as [e Hfirst].
  destruct (first_failure_outcome client config Hfirst) as (t & Hpub & Hreq & Hlog).
  split; [eauto|].
  intros H1 H2 H3.
  assert (Hvf : validator_failure config = Some group_id_required).
  { unfold validator_failure. now rewrite Harn, H1, H2, H3, Hgid, Hv. }
  unfold first_failure in Hfirst. rewrite Hvf in Hfirst. injection Hfirst as <-.
  now rewrite Hpub, (Hlog Hvf).
Qed.

End Claims.

(* ================================================================== *)
(** * The attribute parser *)
(* ================================================================== *)

Section Lookup.
Variable V : Type.
Implicit Types (props : list (jsstring * V)) (k : jsstring) (v : V).

Lemma lookup_app k props1 props2 :
  lookup k (props1 ++ props2)
  = match lookup k props1 with Some x => Some x | None => lookup k props2 end.
Proof.
  induction props1 as [|[k0 v0] rest IH]; simpl; [reflexivity|].
  destruct (str_eqb k k0); [reflexivity | assumption].
Qed.

Lemma lookup_replace k k' v props :
  lookup k (replace k' v props)
  = if str_eqb k k'
    then match lookup k' props with Some _ => Some v | None => None end
    else lookup k props.
Proof.
  induction props as [|[k0 v0] rest IH]; simpl.
  - now destruct (str_eqb k k').
  - destruct (str_eqb k' k0) eqn:E0; simpl.
    + apply str_eqb_eq in E0. subst k0. now destruct (str_eqb k k').
    + rewrite IH. apply str_eqb_neq in E0.
      destruct (str_eqb k k') eqn:E1; [|reflexivity].
      apply str_eqb_eq in E1. subst k'.
      apply str_eqb_neq in E0. now rewrite E0.
Qed.

Lemma lookup_insert_index k n k' v props :
  lookup k' props = None ->
  lookup k (insert_index n k' v props) = if str_eqb k k' then Some v else lookup k props.
Proof.
  induction props as [|[k0 v0] rest IH]; simpl; intro Hnone.
  - reflexivity.
  - destruct (str_eqb k' k0) eqn:E0; [discriminate|].
    destruct (array_index k0) as [m|]; [destruct (N.ltb n m)|]; simpl; try reflexivity.
    rewrite (IH Hnone).
    destruct (str_eqb k k') eqn:E1; [|reflexivity].
    apply str_eqb_eq in E1. subst k'. now rewrite E0.
Qed.

Lemma lookup_define_own k k' v props :
  lookup k (define_own props k' v) = if str_eqb k k' then Some v else lookup k props.
Proof.
  unfold define_own. destruct (lookup k' props) as [old|] eqn:Hold.
  - rewrite lookup_replace, Hold. reflexivity.
  - destruct (array_index k') as [n|].
    + now apply lookup_insert_index.
    + rewrite lookup_app. simpl.
      destruct (str_eqb k k') eqn:E.
      * apply str_eqb_eq in E. subst k'. now rewrite Hold.
      * now destruct (lookup k props).
Qed.

Lemma in_replace k k' v v' props :
  In (k, v) (replace k' v' props) -> In (k, v) props \/ (k, v) = (k', v').
Proof.
  induction props as [|[k0 v0] rest IH]; simpl; [tauto|].
  destruct (str_eqb k' k0) eqn:E0; simpl.
  - apply str_eqb_eq in E0. subst k0. intuition.
  - intuition.
Qed.

Lemma in_insert_index k n k' v v' props :
  In (k, v) (insert_index n k' v' props) -> In (k, v) props \/ (k, v) = (k', v').
Proof.
  induction props as [|[k0 v0] rest IH]; simpl; [intuition|].
  destruct (array_index k0) as [m|]; [destruct (N.ltb n m)|]; simpl; intuition.
Qed.

Lemma in_define_own k k' v v' props :
  In (k, v) (define_own props k' v') -> In (k, v) props \/ (k, v) = (k', v').
Proof.
  unfold define_own. destruct (lookup k' props).
  - apply in_replace.
  - destruct (array_index k').
    + apply in_insert_index.
    + intro H. apply in_app_or in H. simpl in H. intuition.
Qed.

End Lookup.

Lemma lookup_assign (k k' : jsstring) (a : MessageAttributeValue) (attrs : attributes) :
  lookup k (assign attrs k' a)
  = if str_eqb k' (js "__proto__") then lookup k attrs
    else if str_eqb k k' then Some a else lookup k attrs.
Proof.
  unfold assign. destruct (str_eqb k' (js "__proto__")); [reflexivity|].
  apply lookup_define_own.
Qed.

Lemma in_assign (k k' : jsstring) (a a' : MessageAttributeValue) (attrs : attributes) :
  In (k, a) (assign attrs k' a') -> In (k, a) attrs \/ (k, a) = (k', a').
Proof.
  unfold assign. destruct (str_eqb k' (js "__proto__")); [tauto|].
  apply in_define_own.
Qed.

(** The two directions of [messageAttr_of_encodes] once the data type, the
    presence of the two value fields and the outcome of their conversions
    are fixed. *)
Ltac payload_forward :=
  let H := fresh "H" in
  intro H; try discriminate H;
  injection H as <- <- <-;
  repeat split;
  try (intros; discriminate); try (intros; congruence);
  try (let T := fresh "T" in intros [T|[T|T]] ?; discriminate T);
  eauto 7.

Ltac payload_backward :=
  let H1 := fresh "H" in let H2 := fresh "H" in let H3 := fresh "H" in
  let H4 := fresh "H" in let H5 := fresh "H" in let H6 := fresh "H" in
  intros (H1 & H2 & H3 & H4 & H5 & H6);
  try (injection H1 as <-);
  repeat match goal with
         | H : exists _, _ |- _ => destruct H as [? [? ?]]
         end;
  subst;
  repeat match goal with
         | H : inr _ = inr _ |- _ => injection H as <-
         | H : inl _ = inr _ |- _ => discriminate H
         end;
  try reflexivity;
  try (exfalso; apply H3; [auto 6 | reflexivity]; fail);
  try (exfalso; apply H4; [auto 6 | reflexivity]; fail).

Section AttributeFacts.
Context {R : Runtime}.

Lemma includes_valid (v : option json) (d : jsstring) :
  includes validDataTypes v = Some d <-> v = Some (JString d) /\ In d validDataTypes.
Proof.
  unfold includes.
  destruct v as [[| b | n | s | elems | props]|];
    try (split; [discriminate | intros [H _]; discriminate]).
  destruct (existsb (str_eqb s) validDataTypes) eqn:E.
  - apply existsb_exists in E as [x [Hin Hx]]. apply str_eqb_eq in Hx. subst x.
    split.
    + intros [= <-]. auto.
    + intros [[= ->] _]. reflexivity.
  - split; [discriminate|]. intros [[= ->] Hin].
    assert (existsb (str_eqb d) validDataTypes = true) as E'.
    { apply existsb_exists. exists d. split; [assumption | apply str_eqb_refl]. }
    congruence.
Qed.

Lemma valid_cases (d : jsstring) :
  In d validDataTypes ->
  d = js "String" \/ d = js "Number" \/ d = js "Binary" \/ d = js "String.Array".
Proof. simpl. intuition. Qed.

Lemma messageAttr_of_encodes (key : jsstring) (value : json) (a : MessageAttributeValue) :
  messageAttr_of key value = inr a <-> encodes value a.
Proof.
  unfold messageAttr_of, encodes.
  destruct value as [| b | n | s | elems | props];
    try (cbn [get_property field rbind ToBoolean negb raise];
         split; [discriminate | intros [H _]; discriminate]).
  cbn [get_property field rbind].
  generalize (lookup (js "DataType") props) as dtv.
  generalize (lookup (js "StringValue") props) as sv.
  generalize (lookup (js "BinaryValue") props) as bv.
  intros bv sv dtv.
  destruct (includes validDataTypes dtv) as [d|] eqn:Hinc.
  - apply includes_valid in Hinc as [-> Hin].
    destruct a as [adt asv abv]. cbn [DataType StringValue BinaryValue].
    apply valid_cases in Hin as [-> | [-> | [-> | ->]]].
    all: unfold converted, textual.
    all: destruct sv as [sv|], bv as [bv|].
    all: try destruct (ToString sv) as [e1|s1].
    all: try destruct (Buffer_from_base64 bv) as [e2|b2].
    all: vm_compute; split; [payload_forward | payload_backward].
  - split.
    + intro H. destruct (negb (ToBoolean dtv)); [discriminate|].
      destruct dtv as [v|]; [destruct (ToString v)|]; discriminate.
    + intros [Hd [Hin _]].
      assert (includes validDataTypes dtv = Some (DataType a)) as E
        by (apply includes_valid; auto).
      congruence.
Qed.


Lemma accepted_iff (key : jsstring) (value : json) :
  accepted value <-> exists a, messageAttr_of key value = inr a.
Proof.
  unfold accepted. split; intros [a H]; exists a;
    [exact (proj2 (messageAttr_of_encodes key value a) H)
    | exact (proj1 (messageAttr_of_encodes key value a) H)].
Qed.

Lemma convert_entries_in (entries : list (jsstring * json)) :
  forall (acc attrs : attributes) (key : jsstring) (a : MessageAttributeValue),
    convert_entries entries acc = inr attrs ->
    In (key, a) attrs ->
    In (key, a) acc \/ exists value, In (key, value) entries /\ encodes value a.
Proof.
  induction entries as [|[k v] rest IH]; simpl; intros acc attrs key a Hconv Hin.
  - injection Hconv as <-. now left.
  - destruct (messageAttr_of k v) as [e|ma] eqn:Hma; [discriminate|]. simpl in Hconv.
    destruct (IH _ _ _ _ Hconv Hin) as [Hacc | [value [Hv He]]].
    + apply in_assign in Hacc as [Hacc | [= -> ->]]; [now left|].
      right. exists v. split; [now left | now apply (messageAttr_of_encodes k)].
    + right. exists value. auto.
Qed.

Lemma convert_entries_maps (entries : list (jsstring * json)) :
  forall (seen : list (jsstring * json)) (acc attrs : attributes),
    maps_entries seen acc ->
    convert_entries entries acc = inr attrs ->
    maps_entries (seen ++ entries) attrs.
Proof.
  induction entries as [|[k v] rest IH]; simpl; intros seen acc attrs Hseen Hconv.
  - injection Hconv as <-. now rewrite app_nil_r.
  - destruct (messageAttr_of k v) as [e|ma] eqn:Hma; [discriminate|]. simpl in Hconv.
    change (seen ++ (k, v) :: rest) with (seen ++ [(k, v)] ++ rest).
    rewrite app_assoc. apply (IH _ (assign acc k ma)); [|assumption].
    destruct Hseen as [Hsound Hcomplete]. split.
    + intros key a. rewrite lookup_assign.
      destruct (str_eqb k (js "__proto__")) eqn:Ep.
      * intro H. destruct (Hsound _ _ H) as [Hk [value [Hin He]]].
        split; [assumption|]. exists value. split; [apply in_or_app; now left | assumption].
      * destruct (str_eqb key k) eqn:Ek.
        -- apply str_eqb_eq in Ek. subst key. intros [= <-].
           apply str_eqb_neq in Ep. split; [assumption|].
           exists v. split; [apply in_or_app; right; now left|].
           exact (proj1 (messageAttr_of_encodes k v _) Hma).
        -- intro H. destruct (Hsound _ _ H) as [Hk [value [Hin He]]].
           split; [assumption|]. exists value. split; [apply in_or_app; now left | assumption].
    + intros key value Hin Hk. rewrite lookup_assign.
      apply in_app_or in Hin as [Hin | [[= -> ->] | []]].
      * destruct (Hcomplete _ _ Hin Hk) as [a Ha].
        destruct (str_eqb k (js "__proto__")); [eauto|].
        destruct (str_eqb key k); eauto.
      * apply str_eqb_neq in Hk. rewrite Hk, str_eqb_refl. eauto.
Qed.

Lemma convert_entries_accepts (entries : list (jsstring * json)) :
  forall acc : attributes,
    (exists attrs, convert_entries entries acc = inr attrs)
    <-> Forall (fun entry => accepted (snd entry)) entries.
Proof.
  induction entries as [|[k v] rest IH]; simpl; intro acc.
  - split; [constructor | eauto].
  - split.
    + intros [attrs H]. destruct (messageAttr_of k v) as [e|ma] eqn:Hma; [discriminate|].
      simpl in H. constructor.
      * apply (accepted_iff k). eauto.
      * apply (IH (assign acc k ma)). eauto.
    + intro H. inversion H as [|x l Hv Hrest]; subst. simpl in Hv.
      apply (accepted_iff k) in Hv as [ma Hma]. rewrite Hma. simpl.
      now apply IH.
Qed.

Lemma convert_entries_reached (entries : list (jsstring * json)) (key : jsstring)
    (value : json) (e : thrown) :
  reached entries key value ->
  messageAttr_of key value = inl e ->
  forall acc, convert_entries entries acc = inl e.
Proof.
  intros (before & after & -> & Hbefore) He.
  induction before as [|[k v] rest IH]; simpl; intro acc.
  - now rewrite He.
  - inversion Hbefore as [|x l Hv Hrest]; subst. simpl in Hv.
    apply (accepted_iff k) in Hv as [ma Hma]. rewrite Hma. simpl. now apply IH.
Qed.


Lemma get_property_field (value : json) (name : jsstring) :
  value <> JNull -> get_property value name = inr (field value name).
Proof. destruct value; [contradiction | reflexivity ..]. Qed.

Lemma field_not_null (value : json) (name : jsstring) (v : json) :
  field value name = Some v -> value <> JNull.
Proof. intros H ->. discriminate. Qed.

Lemma messageAttr_of_missing_data_type (key : jsstring) (value : json) :
  value <> JNull ->
  ToBoolean (field value (js "DataType")) = false ->
  messageAttr_of key value = inl (missing_data_type key).
Proof.
  intros Hn Hb. unfold messageAttr_of. rewrite (@get_property_field value _ Hn).
  cbn [rbind]. rewrite Hb. cbn [negb].
  unfold missing_data_type, quoted. do 2 f_equal; rewrite <- ?app_assoc; reflexivity.
Qed.

Lemma messageAttr_of_invalid_data_type (key : jsstring) (value dt : json) (shown : jsstring) :
  field value (js "DataType") = Some dt ->
  ToBoolean (Some dt) = true ->
  (forall d, dt = JString d -> ~ In d validDataTypes) ->
  ToString_opt dt = Some shown ->
  messageAttr_of key value = inl (invalid_data_type shown key).
Proof.
  intros Hf Hb Hinvalid Hshown. unfold messageAttr_of.
  rewrite (@get_property_field value _ (@field_not_null value _ _ Hf)), Hf.
  cbn [rbind]. rewrite Hb. cbn [negb].
  destruct (includes validDataTypes (Some dt)) as [d|] eqn:Hinc.
  - apply includes_valid in Hinc as [[= ->] Hin]. now destruct (Hinvalid d eq_refl).
  - unfold ToString. rewrite Hshown. cbn [rbind].
    unfold invalid_data_type, quoted. do 2 f_equal; rewrite <- ?app_assoc; reflexivity.
Qed.

Lemma messageAttr_of_missing_string_value (key : jsstring) (value : json) (d : jsstring) :
  field value (js "DataType") = Some (JString d) ->
  textual d ->
  field value (js "StringValue") = None ->
  messageAttr_of key value = inl (missing_string_value key d).
Proof.
  intros Hf Ht Hs. unfold messageAttr_of.
  pose proof (@field_not_null value _ _ Hf) as Hn.
  rewrite !(fun name => @get_property_field value name Hn), Hf, Hs. cbn [rbind].
  unfold missing_string_value, quoted.
  destruct Ht as [-> | [-> | ->]]; cbn; do 2 f_equal; rewrite <- ?app_assoc; reflexivity.
Qed.

Lemma messageAttr_of_missing_binary_value (key : jsstring) (value : json) :
  field value (js "DataType") = Some (JString (js "Binary")) ->
  field value (js "BinaryValue") = None ->
  messageAttr_of key value = inl (missing_binary_value key).
Proof.
  intros Hf Hb. unfold messageAttr_of.
  pose proof (@field_not_null value _ _ Hf) as Hn.
  rewrite !(fun name => @get_property_field value name Hn), Hf, Hb. cbn [rbind].
  unfold missing_binary_value, quoted.
  cbn; do 2 f_equal; rewrite <- ?app_assoc; reflexivity.
Qed.

Lemma parseMessageAttributes_unfold (text : jsstring) :
  parseMessageAttributes text
  = match JSON.parse text with
    | None => inl (wrapped (Error (fault_message (Syntax_error text))))
    | Some JNull => inl (wrapped (Error (fault_message Keys_of_null)))
    | Some parsed =>
        if Nat.ltb 10 (List.length (own_entries parsed))
        then inl (wrapped (too_many (N.of_nat (List.length (own_entries parsed)))))
        else match convert_entries (own_entries parsed) [] with
             | inl e => inl (wrapped e)
             | inr attrs => inr attrs
             end
    end.
Proof.
  unfold parseMessageAttributes, parse_body, JSON_parse, Object_keys.
  destruct (JSON.parse text) as [parsed|]; [|reflexivity].
  destruct parsed; try reflexivity; cbn [rbind Object_entries own_entries];
    rewrite length_map;
    match goal with |- context [Nat.ltb 10 ?n] => destruct (Nat.ltb 10 n) end;
    reflexivity.
Qed.


Lemma parse_reached_error (text : jsstring) (parsed : json) (key : jsstring) (value : json)
    (e : thrown) :
  JSON.parse text = Some parsed -> parsed <> JNull ->
  (List.length (own_entries parsed) <= 10)%nat ->
  reached (own_entries parsed) key value ->
  messageAttr_of key value = inl e ->
  parseMessageAttributes text = inl (wrapped e).
Proof.
  intros Hparse Hnull Hlen Hreached He.
  rewrite parseMessageAttributes_unfold, Hparse.
  replace (Nat.ltb 10 (List.length (own_entries parsed))) with false
    by (symmetry; apply Nat.ltb_ge; assumption).
  rewrite (convert_entries_reached Hreached He).
  destruct parsed; [contradiction | reflexivity ..].
Qed.

Lemma parse_success (text : jsstring) (attrs : attributes) :
  parseMessageAttributes text = inr attrs ->
  exists parsed,
    JSON.parse text = Some parsed /\ parsed <> JNull
    /\ (List.length (own_entries parsed) <= 10)%nat
    /\ convert_entries (own_entries parsed) [] = inr attrs.
Proof.
  rewrite parseMessageAttributes_unfold.
  destruct (JSON.parse text) as [parsed|]; [|discriminate].
  intro H. exists parsed.
  assert (Hn : parsed <> JNull) by (intros ->; discriminate).
  assert (H' : (if Nat.ltb 10 (List.length (own_entries parsed))
                then inl (wrapped (too_many (N.of_nat (List.length (own_entries parsed)))))
                else match convert_entries (own_entries parsed) [] with
                     | inl e => inl (wrapped e)
                     | inr attrs => inr attrs
                     end) = inr attrs)
    by (destruct parsed; [contradiction | exact H ..]).
  destruct (Nat.ltb_spec 10 (List.length (own_entries parsed))); [discriminate|].
  destruct (convert_entries (own_entries parsed) []); [discriminate|].
  injection H' as ->. auto.
Qed.

(** C6, as amended. [parseMessageAttributes] succeeds exactly on the texts
    that parse as JSON to a value other than [null] with at most 10 entries
    (the properties of an object, the elements of an array, the characters
    of a string; a number or a boolean has none), every entry value being
    accepted: an object with a [DataType] that is one of the four strings,
    a [StringValue] present for String, Number and String.Array, a
    [BinaryValue] present for Binary, and each of the two that is present
    convertible, by [String()] and by [Buffer.from]. On success the mapping
    has exactly the names of the entries other than [__proto__], each
    mapped to the encoding of an entry of that name. The failure message
    names the count when there are more than 10 entries; at the entry the
    loop rejects it names the attribute when the data type or the value
    field of its type is missing, and the offending data type and the
    attribute when the data type is not one of the four. *)
Theorem parseMessageAttributes_accepts (text : jsstring) :
  ((exists attrs, parseMessageAttributes text = inr attrs)
   <-> exists parsed,
         JSON.parse text = Some parsed /\ parsed <> JNull
         /\ (List.length (own_entries parsed) <= 10)%nat
         /\ Forall (fun entry => accepted (snd entry)) (own_entries parsed))
  /\ (forall parsed attrs,
        JSON.parse text = Some parsed -> parseMessageAttributes text = inr attrs ->
        maps_entries (own_entries parsed) attrs)
  /\ (forall parsed,
        JSON.parse text = Some parsed -> parsed <> JNull ->
        ((10 < List.length (own_entries parsed))%nat ->
         parseMessageAttributes text
         = inl (wrapped (too_many (N.of_nat (List.length (own_entries parsed))))))
        /\ ((List.length (own_entries parsed) <= 10)%nat ->
            forall key value,
              reached (own_entries parsed) key value ->
              (value <> JNull -> ToBoolean (field value (js "DataType")) = false ->
               parseMessageAttributes text = inl (wrapped (missing_data_type key)))
              /\ (forall dt shown,
                    field value (js "DataType") = Some dt -> ToBoolean (Some dt) = true ->
                    (forall d, dt = JString d -> ~ In d validDataTypes) ->
                    ToString_opt dt = Some shown ->
                    parseMessageAttributes text = inl (wrapped (invalid_data_type shown key)))
              /\ (forall d,
                    field value (js "DataType") = Some (JString d) -> textual d ->
                    field value (js "StringValue") = None ->
                    parseMessageAttributes text = inl (wrapped (missing_string_value key d)))
              /\ (field value (js "DataType") = Some (JString (js "Binary")) ->
                  field value (js "BinaryValue") = None ->
                  parseMessageAttributes text = inl (wrapped (missing_binary_value key))))).
Proof.
  split; [|split].
  - split.
    + intros [attrs H]. apply parse_success in H as (parsed & Hp & Hn & Hlen & Hconv).
      exists parsed. repeat split; try assumption.
      apply (convert_entries_accepts (own_entries parsed) []). eauto.
    + intros (parsed & Hp & Hn & Hlen & Hall).
      apply (convert_entries_accepts (own_entries parsed) []) in Hall as [attrs Hconv].
      exists attrs. rewrite parseMessageAttributes_unfold, Hp.
      replace (Nat.ltb 10 (List.length (own_entries parsed))) with false
        by (symmetry; apply Nat.ltb_ge; assumption).
      rewrite Hconv. destruct parsed; [contradiction | reflexivity ..].
  - intros parsed attrs Hp H. apply parse_success in H as (parsed' & Hp' & Hn & Hlen & Hconv).
    assert (parsed' = parsed) as -> by congruence.
    apply (@convert_entries_maps (own_entries parsed) [] [] attrs); [|assumption].
    split.
    + intros key a Hl. discriminate.
    + intros key value [].
  - intros parsed Hp Hn. split.
    + intro Hlen. rewrite parseMessageAttributes_unfold, Hp.
      replace (Nat.ltb 10 (List.length (own_entries parsed))) with true
        by (symmetry; apply Nat.ltb_lt; assumption).
      destruct parsed; [contradiction | reflexivity ..].
    + intros Hlen key value Hreached. repeat split.
      * intros Hv Hb. eapply parse_reached_error; eauto.
        now apply messageAttr_of_missing_data_type.
      * intros dt shown Hf Hb Hinv Hs. eapply parse_reached_error; eauto.
        now apply messageAttr_of_invalid_data_type with (dt := dt).
      * intros d Hf Ht Hs. eapply parse_reached_error; eauto.
        now apply messageAttr_of_missing_string_value.
      * intros Hf Hb. eapply parse_reached_error; eauto.
        now apply messageAttr_of_missing_binary_value.
Qed.

Lemma converted_present (A : Type) (conv : json -> result A) (o : option json)
    (payload : option A) :
  converted conv o payload -> (payload <> None <-> o <> None).
Proof.
  unfold converted. destruct o as [v|].
  - intros [x [_ ->]]. split; discriminate.
  - intros ->. tauto.
Qed.

(** C8, as amended. Each attribute of the mapping that
    [parseMessageAttributes] produces has one of the four data types and
    carries the payload of its type: a textual value for String, Number
    and String.Array, a binary payload for Binary. It carries the other
    payload as well exactly when the entry it encodes has that field too:
    the textual value is present if and only if the entry has a
    [StringValue], the binary payload if and only if it has a
    [BinaryValue]. *)
Theorem attribute_payload_matches_type (text : jsstring) (attrs : attributes)
    (key : jsstring) (a : MessageAttributeValue) :
  parseMessageAttributes text = inr attrs ->
  In (key, a) attrs ->
  In (DataType a) validDataTypes
  /\ (textual (DataType a) -> StringValue a <> None)
  /\ (DataType a = js "Binary" -> BinaryValue a <> None)
  /\ exists parsed value,
       JSON.parse text = Some parsed
       /\ In (key, value) (own_entries parsed)
       /\ encodes value a
       /\ (StringValue a <> None <-> field value (js "StringValue") <> None)
       /\ (BinaryValue a <> None <-> field value (js "BinaryValue") <> None).
Proof.
  intros H Hin. apply parse_success in H as (parsed & Hp & Hn & Hlen & Hconv).
  destruct (convert_entries_in _ _ _ _ Hconv Hin) as [[] | [value [Hv Henc]]].
  pose proof Henc as (Hd & Hvalid & Hs & Hb & Hcs & Hcb).
  pose proof (@converted_present _ _ _ _ Hcs) as Hps.
  pose proof (@converted_present _ _ _ _ Hcb) as Hpb.
  repeat split; try assumption.
  - intro Ht. apply Hps. auto.
  - intro Ht. apply Hpb. auto.
  - exists parsed, value. tauto.
Qed.

End AttributeFacts.

(** C6, as stated, fails: the text [array_text] is a JSON array, not a JSON
    object, and [parseMessageAttributes] succeeds on it, naming the
    attribute by its index. *)
Lemma array_text_is_parsed :
  parseMessageAttributes array_text
  = inr [(js "0", {| DataType := js "String"; StringValue := Some (js "x"); BinaryValue := None |})]
  /\ ~ attributes_as_specified array_text.
Proof.
  split; [reflexivity|].
  intros (props & Hp & _). vm_compute in Hp. discriminate.
Qed.

(** C8, as stated, fails: [two_payloads_text] gives a Binary attribute both
    payloads, and the mapping keeps the two. *)
Lemma binary_attribute_keeps_text :
  exists attrs a,
    parseMessageAttributes two_payloads_text = inr attrs
    /\ In (js "A", a) attrs
    /\ DataType a = js "Binary"
    /\ StringValue a = Some (js "x")
    /\ BinaryValue a = Some [104%N; 105%N]
    /\ ~ one_payload a.
Proof.
  do 2 eexists. split; [reflexivity|]. split; [now left|].
  repeat split. intros [_ H]. destruct (H eq_refl) as [_ Hs]. discriminate.
Qed.

(* ================================================================== *)
(** * The properties on the sample inputs *)
(* ================================================================== *)

Lemma standard_arn_not_fifo : ~ is_fifo standard_arn.
Proof. intro H. apply is_fifo_endsWith in H. discriminate H. Qed.

Lemma fifo_arn_is_fifo : is_fifo fifo_arn.
Proof. apply is_fifo_endsWith. reflexivity. Qed.

Lemma malformed_attributes_never_sent :
  exists e t,
    first_failure malformed_config = Some e
    /\ publishMessage (answering response_with_id) malformed_config
       = (t, inr (failure (errorMessage e)))
    /\ requests t = []
    /\ (validator_failure malformed_config = Some e -> t = [failure_log (errorMessage e)]).
Proof.
  apply (validation_failure_short_circuits (answering response_with_id) (config := malformed_config)).
  right; right; right; right. do 2 eexists.
  split; [reflexivity|]. split; [discriminate | reflexivity].
Defined.

Lemma fifo_request_fields :
  exists request,
    requests (fst (publishMessage (answering fifo_response) fifo_config)) = [request]
    /\ request = assembled fifo_config None
    /\ TopicArn request = topicArn fifo_config
    /\ Message request = message fifo_config
    /\ included_iff_supplied (Subject request) (subject fifo_config) eq
    /\ included_iff_supplied (MessageAttributes request) (messageAttributes fifo_config)
         (fun parsed text => parseMessageAttributes text = inr parsed)
    /\ included_iff_supplied (MessageStructure request) (messageStructure fifo_config) eq
    /\ included_iff_supplied (MessageGroupId request) (messageGroupId fifo_config) eq
    /\ included_iff_supplied (MessageDeduplicationId request)
         (messageDeduplicationId fifo_config) eq
    /\ TargetArn request = None
    /\ PhoneNumber request = None.
Proof.
  apply (assembled_request_fields (answering fifo_response) (config := fifo_config) (attrs := None)).
  repeat split; reflexivity.
Defined.

Lemma group_id_on_standard_topic :
  validateFifoTopic standard_arn (Some (js "g1")) = ([Warning group_id_ignored], inr tt)
  /\ forall client config attrs,
       topicArn config = standard_arn -> messageGroupId config = Some (js "g1") ->
       validations_pass config attrs ->
       exists request,
         requests (fst (publishMessage client config)) = [request]
         /\ MessageGroupId request = Some (js "g1").
Proof.
  apply (proj2 (proj2 (validateFifoTopic_requires_group_id standard_arn (Some (js "g1"))))).
  - exact standard_arn_not_fifo.
  - exists (js "g1"). split; [reflexivity | discriminate].
Defined.

Lemma empty_group_on_fifo_arn :
  validateFifoTopic fifo_arn (Some []) = ([], inl group_id_required)
  /\ validateFifoTopic fifo_arn (Some []) = validateFifoTopic fifo_arn None
  /\ forall client config,
       topicArn config = fifo_arn -> messageGroupId config = Some [] ->
       publishMessage client config
       = publishMessage client (with_messageGroupId config None)
       /\ (exists t m, publishMessage client config = (t, inr (failure m)) /\ requests t = [])
       /\ (validateTopicArn fifo_arn = inr tt ->
           validateMessage (message config) = inr tt ->
           validateMessageStructure (messageStructure config) = inr tt ->
           publishMessage client config
           = ([failure_log (errorMessage group_id_required)],
              inr (failure (errorMessage group_id_required)))).
Proof.
  apply (empty_group_id_is_absent (arn := fifo_arn)). exact fifo_arn_is_fifo.
Defined.

Lemma number_without_value_rejected :
  parseMessageAttributes no_value_text
  = inl (wrapped (missing_string_value (js "A") (js "Number"))).
Proof.
  refine (proj1 (proj2 (proj2
    (proj2 (proj2 (proj2 (parseMessageAttributes_accepts no_value_text))
       (JObject [(js "A", JObject [(js "DataType", JString (js "Number"))])]) _ _)
       _ (js "A") (JObject [(js "DataType", JString (js "Number"))]) _))) (js "Number") _ _ _).
  - reflexivity.
  - discriminate.
  - simpl. lia.
  - exists [], []. split; [reflexivity | constructor].
  - reflexivity.
  - right. left. reflexivity.
  - reflexivity.
Defined.

Lemma binary_text_payload :
  let a := {| DataType := js "Binary"; StringValue := None; BinaryValue := Some [104%N; 105%N] |} in
  In (DataType a) validDataTypes
  /\ (textual (DataType a) -> StringValue a <> None)
  /\ (DataType a = js "Binary" -> BinaryValue a <> None)
  /\ exists parsed value,
       JSON.parse binary_text = Some parsed
       /\ In (js "B", value) (own_entries parsed)
       /\ encodes value a
       /\ (StringValue a <> None <-> field value (js "StringValue") <> None)
       /\ (BinaryValue a <> None <-> field value (js "BinaryValue") <> None).
Proof.
  intro a.
  apply (@attribute_payload_matches_type runtime binary_text [(js "B", a)] (js "B") a).
  - reflexivity.
  - now left.
Defined.

(** C2, as stated, fails: a success does not always carry a message id.
    When the response of the client has none, the result is a success
    without one. *)
Lemma success_without_message_id :
  exists t r,
    publishMessage (answering empty_response) plain_config = (t, inr r)
    /\ success r = true /\ messageId r = None
    /\ ~ result_as_specified r.
Proof.
  do 2 eexists. split; [reflexivity|]. repeat split.
  intros [(_ & H & _) | (H & _)]; [now apply H | discriminate H].
Qed.

(** ** [JSON.parse] *)

Example parse_object_order :
  JSON.parse (json_text "{'b':1,'10':[true,null],'2':{'x':'y'},'b':-1.5e3}")
  = Some (JObject [(js "2", JObject [(js "x", JString (js "y"))]);
                   (js "10", JArray [JBool true; JNull]);
                   (js "b", JNumber (js "-1.5e3"))]).
Proof. reflexivity. Qed.

Example parse_escapes :
  JSON.parse (json_text "'aA\n\\'") = Some (JString [97; 65; 10; 92]%N).
Proof. reflexivity. Qed.

Example parse_rejects :
  map JSON.parse [js ""; js "{"; json_text "{'a':1,}"; js "[1 2]"; js "01"; js "tru";
                  json_text "{'a' 1}"; js "[}"; js "1."; js "-"; json_text "'\x'"]
  = repeat None 11.
Proof. reflexivity. Qed.

(** ** The scenarios of the specification *)

Example plain_publish :
  exists t,
    publishMessage (answering response_with_id) plain_config
    = (t, inr {| success := true; messageId := Some (js "id-1");
                 sequenceNumber := None; error := None |})
    /\ requests t = [new_input standard_arn (js "hello")].
Proof. eexists. split; reflexivity. Qed.

Example fifo_publish :
  exists t,
    publishMessage (answering fifo_response) fifo_config
    = (t, inr {| success := true; messageId := Some (js "id-2");
                 sequenceNumber := Some (js "10000000000000003000"); error := None |})
    /\ requests t = [set_MessageGroupId (new_input fifo_arn (js "hello")) (js "g1")].
Proof. eexists. split; reflexivity. Qed.

Example rejected_publish :
  exists t,
    publishMessage (rejecting (Error (js "AccessDenied"))) plain_config
    = (t, inr (failure (js "AccessDenied")))
    /\ requests t = [new_input standard_arn (js "hello")].
Proof. eexists. split; reflexivity. Qed.

Example fifo_without_group : validateFifoTopic fifo_arn None = ([], inl group_id_required).
Proof. reflexivity. Qed.

Example fifo_with_group : validateFifoTopic fifo_arn (Some (js "g1")) = ([], inr tt).
Proof. reflexivity. Qed.

Example string_attribute :
  parseMessageAttributes string_text
  = inr [(js "A", {| DataType := js "String"; StringValue := Some (js "x");
                     BinaryValue := None |})].
Proof. reflexivity. Qed.

Example binary_attribute :
  parseMessageAttributes binary_text
  = inr [(js "B", {| DataType := js "Binary"; StringValue := None;
                     BinaryValue := Some (js "hi") |})].
Proof. reflexivity. Qed.

Example eleven_attributes :
  parseMessageAttributes eleven_text = inl (wrapped (too_many 11)).
Proof. reflexivity. Qed.

Example empty_group_publish :
  publishMessage (answering fifo_response) empty_group_config
  = ([failure_log (errorMessage group_id_required)],
     inr (failure (errorMessage group_id_required))).
Proof. vm_compute. reflexivity. Qed.

Example grouped_standard_publish :
  fst (publishMessage (answering response_with_id) grouped_standard_config)
  = [Warning group_id_ignored;
     Info (js "Publishing message to topic: " ++ standard_arn);
     Info (js "Message size: 5 bytes");
     Info (js "Message group ID: g1");
     Send (set_MessageGroupId (new_input standard_arn (js "hello")) (js "g1"));
     Info (check_mark ++ js " Message published successfully");
     Info (js "Message ID: id-1")].
Proof. vm_compute. reflexivity. Qed.

Example missing_type_message :
  parseMessageAttributes no_type_text = inl (wrapped (missing_data_type (js "A"))).
Proof. vm_compute. reflexivity. Qed.

Example invalid_type_message :
  parseMessageAttributes bad_type_text
  = inl (wrapped (invalid_data_type (js "Boolean") (js "A"))).
Proof. vm_compute. reflexivity. Qed.

Example missing_binary_message :
  parseMessageAttributes no_binary_text = inl (wrapped (missing_binary_value (js "A"))).
Proof. vm_compute. reflexivity. Qed.

Example malformed_message :
  parseMessageAttributes (js "{")
  = inl (wrapped (Error (fault_message (Syntax_error (js "{"))))).
Proof. vm_compute. reflexivity. Qed.

(* ================================================================== *)
(** * Further properties of [src/sns.ts] *)
(* ================================================================== *)

(** ** Traces *)

Lemma quiet_app (t u : list event) : quiet t -> quiet u -> quiet (t ++ u).
Proof. unfold quiet. intros Ht Hu. now rewrite forallb_app, Ht, Hu. Qed.

Lemma quiet_silent (t : list event) :
  quiet t -> requests t = [] /\ warnings t = [] /\ error_logs t = [].
Proof.
  unfold quiet. induction t as [|ev t IH]; [auto|].
  simpl. intro H. apply andb_true_iff in H as [He Ht].
  destruct ev; try discriminate. simpl. auto.
Qed.

Lemma warnings_app (t u : list event) : warnings (t ++ u) = warnings t ++ warnings u.
Proof.
  induction t as [|ev t IH]; [reflexivity|].
  destruct ev; simpl; now rewrite ?IH.
Qed.

Lemma error_logs_app (t u : list event) : error_logs (t ++ u) = error_logs t ++ error_logs u.
Proof.
  induction t as [|ev t IH]; [reflexivity|].
  destruct ev; simpl; now rewrite ?IH.
Qed.

Lemma carried_idempotent (o : option jsstring) : carried (carried o) = carried o.
Proof. now destruct o as [[|c s]|]. Qed.

Lemma carried_not_empty (o : option jsstring) : carried o <> Some [].
Proof. destruct o as [[|c s]|]; discriminate. Qed.

Section Traces.
Context {R : Runtime}.

Lemma validate_inputs_passed (config : MessageConfig) :
  validator_failure config = None ->
  validateTopicArn (topicArn config) = inr tt
  /\ validateMessage (message config) = inr tt
  /\ validateMessageStructure (messageStructure config) = inr tt
  /\ snd (validateFifoTopic (topicArn config) (messageGroupId config)) = inr tt
  /\ validate_inputs config = (map Warning (expected_warnings config), inr tt).
Proof.
  pose proof (validate_inputs_first_failure config) as H.
  unfold validator_failure, expected_warnings.
  destruct (validateTopicArn _) as [e|[]]; [discriminate|].
  destruct (validateMessage _) as [e|[]]; [discriminate|].
  destruct (validateMessageStructure _) as [e|[]]; [discriminate|].
  rewrite H.
  destruct (validateFifoTopic_cases (topicArn config) (messageGroupId config))
    as [(Hf & Hg & ->) | [(Hf & Hg & ->) | (Hfg & ->)]]; cbn [snd].
  - discriminate.
  - rewrite Hf, Hg. auto.
  - rewrite Hfg. destruct (truthy (messageGroupId config)); auto.
Qed.

Lemma build_input_quiet (config : MessageConfig) :
  exists t, quiet t
    /\ match attribute_pass config with
       | inl e => build_input config = (t, inl e)
       | inr attrs => build_input config = (t, inr (assembled config attrs))
       end.
Proof.
  destruct config as [arn body subj attrs gid did str].
  unfold build_input, attribute_pass, assembled. simpl.
  destruct attrs as [[|c s]|]; simpl;
    [ | destruct (parseMessageAttributes (c :: s)) as [e|parsed]; simpl | ];
    destruct subj as [[|? ?]|], str as [[|? ?]|], gid as [[|? ?]|], did as [[|? ?]|];
    simpl; eexists; (split; [|reflexivity]); reflexivity.
Qed.

Lemma publish_trace (client : SNSClient) (input : PublishCommandInput) :
  match client input with
  | inl e => publish client input = ([Send input], inl e)
  | inr response =>
      exists t, quiet t
        /\ publish client input
           = (Send input :: t,
              inr {| success := true; messageId := MessageId response;
                     sequenceNumber := SequenceNumber response; error := None |})
  end.
Proof.
  unfold publish, client_send.
  destruct (client input) as [e|[mid seq]]; [reflexivity|].
  destruct mid as [[|? ?]|], seq as [[|? ?]|]; simpl;
    eexists; (split; [|reflexivity]); reflexivity.
Qed.

(** The whole trace of [publishMessage]: the warning, information lines,
    the request, information lines, and the error line of a failure. *)
Lemma publishMessage_trace (client : SNSClient) (config : MessageConfig) :
  match validator_failure config with
  | Some e =>
      publishMessage client config
      = ([failure_log (errorMessage e)], inr (failure (errorMessage e)))
  | None =>
      exists before, quiet before
        /\ match attribute_pass config with
           | inl e =>
               publishMessage client config
               = (map Warning (expected_warnings config) ++ before
                  ++ [failure_log (errorMessage e)],
                  inr (failure (errorMessage e)))
           | inr attrs =>
               match client (assembled config attrs) with
               | inl e =>
                   publishMessage client config
                   = (map Warning (expected_warnings config) ++ before
                      ++ [Send (assembled config attrs); failure_log (errorMessage e)],
                      inr (failure (errorMessage e)))
               | inr response =>
                   exists after, quiet after
                     /\ publishMessage client config
                        = (map Warning (expected_warnings config) ++ before
                           ++ Send (assembled config attrs) :: after,
                           inr {| success := true; messageId := MessageId response;
                                  sequenceNumber := SequenceNumber response;
                                  error := None |})
               end
           end
  end.
Proof.
  pose proof (validator_failure_inputs config) as Hv.
  destruct (validator_failure config) as [e|] eqn:Hvf.
  - unfold publishMessage, publish_body. rewrite Hv. reflexivity.
  - clear Hv. destruct (validate_inputs_passed config Hvf) as (_ & _ & _ & _ & Hw).
    unfold publishMessage, publish_body. rewrite Hw, bind_inr.
    destruct (build_input_quiet config) as [tb [Hq Hbuild]].
    set (head := [Info (js "Publishing message to topic: " ++ topicArn config);
                  Info (js "Message size: " ++ decimal (byteLength (message config))
                        ++ js " bytes")]).
    exists (head ++ tb). split; [apply quiet_app; [reflexivity | assumption]|].
    destruct (attribute_pass config) as [e|attrs].
    + rewrite Hbuild. simpl. repeat (rewrite <- app_assoc; simpl); reflexivity.
    + rewrite Hbuild.
      pose proof (publish_trace client (assembled config attrs)) as Hp.
      destruct (client (assembled config attrs)) as [e|response].
      * simpl. rewrite Hp. simpl. repeat (rewrite <- app_assoc; simpl); reflexivity.
      * destruct Hp as [ta [Hqa Hp]]. exists ta. split; [assumption|].
        simpl. rewrite Hp. simpl. repeat (rewrite <- app_assoc; simpl); reflexivity.
Qed.

End Traces.

(** ** Names of a record *)

Section Names.
Variable V : Type.
Implicit Types (props : list (jsstring * V)) (k : jsstring) (v : V).

Lemma lookup_none_iff k props : lookup k props = None <-> ~ In k (map fst props).
Proof.
  induction props as [|[k0 v0] rest IH]; simpl; [tauto|].
  destruct (str_eqb k k0) eqn:E.
  - apply str_eqb_eq in E. subst k0. split; [discriminate | intro H; exfalso; auto].
  - apply str_eqb_neq in E. rewrite IH. intuition congruence.
Qed.

Lemma names_replace k v props : map fst (replace k v props) = map fst props.
Proof.
  induction props as [|[k0 v0] rest IH]; simpl; [reflexivity|].
  destruct (str_eqb k k0); simpl; [reflexivity | now rewrite IH].
Qed.

Lemma length_replace k v props : List.length (replace k v props) = List.length props.
Proof. now rewrite <- (length_map fst), names_replace, length_map. Qed.

Lemma names_insert_index n k v props x :
  In x (map fst (insert_index n k v props)) <-> x = k \/ In x (map fst props).
Proof.
  induction props as [|[k0 v0] rest IH]; simpl; [intuition|].
  destruct (array_index k0) as [m|]; [destruct (N.ltb n m)|]; simpl; try rewrite IH;
    intuition.
Qed.

Lemma length_insert_index n k v props :
  List.length (insert_index n k v props) = S (List.length props).
Proof.
  induction props as [|[k0 v0] rest IH]; simpl; [reflexivity|].
  destruct (array_index k0) as [m|]; [destruct (N.ltb n m)|]; simpl; congruence.
Qed.

Lemma nodup_insert_index n k v props :
  ~ In k (map fst props) -> NoDup (map fst props) ->
  NoDup (map fst (insert_index n k v props)).
Proof.
  induction props as [|[k0 v0] rest IH]; simpl; intros Hk Hnd.
  - constructor; [tauto | constructor].
  - assert (Hnew : NoDup (k :: k0 :: map fst rest)) by (constructor; simpl; tauto).
    destruct (array_index k0) as [m|]; [destruct (N.ltb n m)|]; simpl; try exact Hnew.
    inversion Hnd as [|x l Hx Hrest]; subst. constructor.
    + rewrite names_insert_index. intuition.
    + apply IH; tauto.
Qed.

Lemma names_define_own k v props x :
  In x (map fst (define_own props k v)) <-> x = k \/ In x (map fst props).
Proof.
  unfold define_own. destruct (lookup k props) as [old|] eqn:Hold.
  - rewrite names_replace. split; [tauto|]. intros [-> | H]; [|assumption].
    destruct (in_dec (list_eq_dec N.eq_dec) k (map fst props)) as [Hin | Hout];
      [assumption|].
    apply lookup_none_iff in Hout. congruence.
  - destruct (array_index k) as [n|].
    + apply names_insert_index.
    + rewrite map_app, in_app_iff. simpl. intuition.
Qed.

Lemma nodup_define_own k v props :
  NoDup (map fst props) -> NoDup (map fst (define_own props k v)).
Proof.
  unfold define_own. intro Hnd. destruct (lookup k props) as [old|] eqn:Hold.
  - now rewrite names_replace.
  - apply lookup_none_iff in Hold. destruct (array_index k) as [n|].
    + now apply nodup_insert_index.
    + rewrite map_app. simpl. apply NoDup_app; [assumption | constructor; [tauto | constructor] |].
      intros x Hx [<- | []]. contradiction.
Qed.

Lemma length_define_own k v props :
  (List.length (define_own props k v) <= S (List.length props))%nat.
Proof.
  unfold define_own. destruct (lookup k props).
  - rewrite length_replace. lia.
  - destruct (array_index k).
    + rewrite length_insert_index. lia.
    + rewrite length_app. simpl. lia.
Qed.

End Names.

(** ** The validators, once more *)

Lemma validateTopicArn_inr_iff (arn : jsstring) :
  validateTopicArn arn = inr tt <-> arn_shape arn.
Proof.
  rewrite <- arnPattern_lang, <- matches_lang.
  destruct (validateTopicArn_cases arn) as [[Ht ->] | [Ht ->]];
    unfold test_anchored in Ht; rewrite Ht; split; auto; discriminate.
Qed.

Lemma validateMessage_inr_iff (body : jsstring) :
  validateMessage body = inr tt <-> (byteLength body <= 262144)%N.
Proof.
  unfold validateMessage. change maxSizeBytes with 262144%N.
  destruct (N.ltb_spec 262144 (byteLength body)) as [Hlt | Hle]; split; intro Hx;
    try reflexivity; try discriminate; lia.
Qed.

Lemma validateMessageStructure_inr (mode : option jsstring) :
  validateMessageStructure mode = inr tt -> mode = None \/ mode = Some (js "json").
Proof.
  destruct mode as [s|]; [|auto]. unfold validateMessageStructure.
  destruct (str_eqb s (js "json")) eqn:E; [|discriminate].
  apply str_eqb_eq in E. subst. auto.
Qed.

Lemma existsb_app_false (A : Type) (p : A -> bool) (l1 l2 : list A) :
  existsb p l1 = false -> existsb p l2 = false -> existsb p (l1 ++ l2) = false.
Proof. intros H1 H2. now rewrite existsb_app, H1, H2. Qed.

(** X11. An accepted ARN stays accepted when its topic name is extended by
    characters that are not line terminators. In particular the ARN of the
    FIFO topic of the same name, with [.fifo] appended, is accepted, and
    [validateFifoTopic] takes it for a FIFO topic: it then requires a
    group id. *)
Theorem accepted_arn_extends (arn suffix : jsstring) :
  validateTopicArn arn = inr tt ->
  existsb line_terminator suffix = false ->
  validateTopicArn (arn ++ suffix) = inr tt
  /\ validateTopicArn (arn ++ js ".fifo") = inr tt
  /\ validateFifoTopic (arn ++ js ".fifo") None = ([], inl group_id_required).
Proof.
  intros Harn Hsuffix. apply validateTopicArn_inr_iff in Harn.
  destruct Harn as (region & account & name & -> & Hr1 & Hr2 & Ha1 & Ha2 & Hn1 & Hn2).
  assert (Hext : forall extra, existsb line_terminator extra = false ->
            validateTopicArn ((js "arn:aws:sns:" ++ region ++ js ":" ++ account ++ js ":" ++ name)
                              ++ extra) = inr tt).
  { intros extra Hextra. apply validateTopicArn_inr_iff.
    exists region, account, (name ++ extra). repeat split; try assumption.
    - now rewrite <- !app_assoc.
    - destruct name; [contradiction | discriminate].
    - now apply existsb_app_false. }
  split; [now apply Hext|]. split; [now apply Hext|].
  unfold validateFifoTopic.
  replace (endsWith _ (js ".fifo")) with true; [reflexivity|].
  symmetry. apply endsWith_iff. eauto.
Qed.

(** X12. The size check in terms of the length of the body: a body of at most
    87381 characters always passes, whatever the characters; a body of more
    than 262144 characters always fails; a body of ASCII characters passes
    exactly when it has at most 262144 of them. *)
Theorem validateMessage_by_length (body : jsstring) :
  ((str_length body <= 87381)%N -> validateMessage body = inr tt)
  /\ ((262144 < str_length body)%N -> validateMessage body = inl (size_error (byteLength body)))
  /\ (forallb (fun c => N.ltb c 128) body = true ->
      (validateMessage body = inr tt <-> (str_length body <= 262144)%N)).
Proof.
  pose proof (byteLength_bounds body) as [Hlow Hhigh].
  split; [|split].
  - intro H. apply validateMessage_inr_iff. lia.
  - intro H. unfold validateMessage, size_error. change maxSizeBytes with 262144%N.
    replace (N.ltb 262144 (byteLength body)) with true by (symmetry; apply N.ltb_lt; lia).
    do 2 f_equal; rewrite <- ?app_assoc; reflexivity.
  - intro H. rewrite validateMessage_inr_iff, (byteLength_ascii body H). tauto.
Qed.

(** ** The mapping of [parseMessageAttributes] *)

Section Mapping.
Context {R : Runtime}.

Lemma assign_names (attrs : attributes) (key : jsstring) (a : MessageAttributeValue) :
  NoDup (map fst attrs) -> ~ In (js "__proto__") (map fst attrs) ->
  NoDup (map fst (assign attrs key a))
  /\ ~ In (js "__proto__") (map fst (assign attrs key a))
  /\ (List.length (assign attrs key a) <= S (List.length attrs))%nat.
Proof.
  intros Hnd Hproto. unfold assign.
  destruct (str_eqb key (js "__proto__")) eqn:E.
  - repeat split; auto.
  - apply str_eqb_neq in E. repeat split.
    + now apply nodup_define_own.
    + rewrite names_define_own. intros [H | H]; [congruence | contradiction].
    + apply length_define_own.
Qed.

Lemma convert_entries_names (entries : list (jsstring * json)) :
  forall acc attrs : attributes,
    convert_entries entries acc = inr attrs ->
    NoDup (map fst acc) -> ~ In (js "__proto__") (map fst acc) ->
    NoDup (map fst attrs)
    /\ ~ In (js "__proto__") (map fst attrs)
    /\ (List.length attrs <= List.length acc + List.length entries)%nat.
Proof.
  induction entries as [|[k v] rest IH]; simpl; intros acc attrs Hconv Hnd Hproto.
  - injection Hconv as <-. repeat split; auto. lia.
  - destruct (messageAttr_of k v) as [e|ma]; [discriminate|]. simpl in Hconv.
    destruct (@assign_names acc k ma Hnd Hproto) as (Hnd' & Hproto' & Hlen').
    destruct (IH _ _ Hconv Hnd' Hproto') as (H1 & H2 & H3).
    repeat split; auto. lia.
Qed.

Lemma parse_names (text : jsstring) (attrs : attributes) :
  parseMessageAttributes text = inr attrs ->
  (List.length attrs <= 10)%nat
  /\ NoDup (map fst attrs)
  /\ ~ In (js "__proto__") (map fst attrs).
Proof.
  intro H. apply parse_success in H as (parsed & Hp & Hn & Hlen & Hconv).
  assert (Hnil : NoDup (map fst (@nil (jsstring * MessageAttributeValue)))) by constructor.
  destruct (@convert_entries_names (own_entries parsed) [] attrs Hconv Hnil (fun x => x))
    as (Hnd & Hproto & Hlen').
  split; [simpl in Hlen'; lia | auto].
Qed.


Lemma parse_entryless (text : jsstring) (parsed : json) :
  JSON.parse text = Some parsed -> parsed <> JNull -> own_entries parsed = [] ->
  parseMessageAttributes text = inr [].
Proof.
  intros Hp Hn He. rewrite parseMessageAttributes_unfold, Hp, He. simpl.
  destruct parsed; [contradiction | reflexivity ..].
Qed.

Lemma parse_null (text : jsstring) :
  JSON.parse text = Some JNull ->
  parseMessageAttributes text = inl (wrapped (Error (fault_message Keys_of_null))).
Proof. intro Hp. now rewrite parseMessageAttributes_unfold, Hp. Qed.

End Mapping.

(** ** What [publishMessage] logs and sends *)

Lemma requests_warnings (l : list jsstring) : requests (map Warning l) = [].
Proof. induction l; simpl; auto. Qed.

Lemma warnings_warnings (l : list jsstring) : warnings (map Warning l) = l.
Proof. induction l; simpl; congruence. Qed.

Lemma error_logs_warnings (l : list jsstring) : error_logs (map Warning l) = [].
Proof. induction l; simpl; auto. Qed.

Section Publishing.
Context {R : Runtime}.

Lemma first_failure_fails (config : MessageConfig) (e : thrown) :
  first_failure config = Some e -> some_validation_fails config.
Proof.
  unfold first_failure, validator_failure, some_validation_fails, attribute_pass.
  destruct (validateTopicArn _) as [e1|u1]; [eauto|].
  destruct (validateMessage _) as [e2|u2]; [eauto 6|].
  destruct (validateMessageStructure _) as [e3|u3]; [eauto 7|].
  destruct (snd (validateFifoTopic _ _)) as [e4|u4]; [eauto 8|].
  destruct (messageAttributes config) as [[|c s]|]; simpl; try discriminate.
  destruct (parseMessageAttributes (c :: s)) as [e5|attrs] eqn:Hparse; [|discriminate].
  intros _. do 4 right. exists (c :: s), e5. repeat split; [discriminate | assumption].
Qed.

Lemma first_failure_none (config : MessageConfig) :
  first_failure config = None ->
  validator_failure config = None /\ exists attrs, attribute_pass config = inr attrs.
Proof.
  unfold first_failure. destruct (validator_failure config); [discriminate|].
  destruct (attribute_pass config) as [e|attrs]; [discriminate | eauto].
Qed.

(** The requests, warnings and error lines of a run of [publishMessage]. *)
Lemma publishMessage_projections (client : SNSClient) (config : MessageConfig) :
  exists t r,
    publishMessage client config = (t, inr r)
    /\ requests t
       = match first_failure config, attribute_pass config with
         | None, inr attrs => [assembled config attrs]
         | _, _ => []
         end
    /\ warnings t
       = match validator_failure config with
         | Some _ => []
         | None => expected_warnings config
         end
    /\ error_logs t
       = match error r with
         | Some m => [js "Failed to publish message: " ++ m]
         | None => []
         end
    /\ (forall m, error r = Some m -> exists before, t = before ++ [failure_log m])
    /\ (success r = true <-> error r = None).
Proof.
  pose proof (publishMessage_trace client config) as H. unfold first_failure.
  destruct (validator_failure config) as [e|].
  - rewrite H. do 2 eexists. split; [reflexivity|]. simpl.
    split; [now destruct (attribute_pass config)|].
    split; [reflexivity|]. split; [reflexivity|]. split; [|split; discriminate].
    intros m [= <-]. exists []. reflexivity.
  - destruct H as [before [Hq H]]. destruct (quiet_silent Hq) as (Hr & Hw & He).
    destruct (attribute_pass config) as [e|attrs].
    + rewrite H. do 2 eexists. split; [reflexivity|].
      rewrite !requests_app, !warnings_app, !error_logs_app,
        requests_warnings, warnings_warnings, error_logs_warnings, Hr, Hw, He.
      simpl. rewrite app_nil_r.
      split; [reflexivity|]. split; [reflexivity|]. split; [reflexivity|].
      split; [|split; discriminate].
      intros m [= <-]. rewrite app_assoc. eauto.
    + destruct (client (assembled config attrs)) as [e|response].
      * rewrite H. do 2 eexists. split; [reflexivity|].
        rewrite !requests_app, !warnings_app, !error_logs_app,
          requests_warnings, warnings_warnings, error_logs_warnings, Hr, Hw, He.
        simpl. rewrite app_nil_r.
        split; [reflexivity|]. split; [reflexivity|]. split; [reflexivity|].
        split; [|split; discriminate].
        intros m [= <-].
        exists (map Warning (expected_warnings config) ++ before
                ++ [Send (assembled config attrs)]).
        now rewrite <- !app_assoc.
      * destruct H as [after [Hqa H]]. destruct (quiet_silent Hqa) as (Hr' & Hw' & He').
        rewrite H. do 2 eexists. split; [reflexivity|].
        rewrite !requests_app, !warnings_app, !error_logs_app,
          requests_warnings, warnings_warnings, error_logs_warnings, Hr, Hw, He.
        simpl. rewrite Hr', Hw', He', app_nil_r.
        split; [reflexivity|]. split; [reflexivity|]. split; [reflexivity|].
        split; [discriminate | split; reflexivity].
Qed.

End Publishing.

Section PublishingProperties.
Context {R : Runtime}.

(** X1. [publishMessage] hands a request to the client exactly when no
    validation fails: no validator fails and a supplied attribute string
    parses. It never hands over more than one. *)
Theorem request_sent_iff_valid (client : SNSClient) (config : MessageConfig) :
  (requests (fst (publishMessage client config)) = [] <-> some_validation_fails config)
  /\ (List.length (requests (fst (publishMessage client config))) <= 1)%nat.
Proof.
  destruct (publishMessage_projections client config) as (t & r & -> & Hreq & _).
  cbn [fst]. rewrite Hreq.
  destruct (first_failure config) as [e|] eqn:Hff.
  - split; [|simpl; lia]. split; [intros _; eapply first_failure_fails; eassumption | reflexivity].
  - destruct (first_failure_none config Hff) as [_ [attrs ->]].
    split; [|simpl; lia]. split; [discriminate|].
    intro Hfails. apply some_validation_fails_first in Hfails as [e He]. congruence.
Qed.

Lemma assembled_is_validated (config : MessageConfig) (attrs : option attributes) :
  validator_failure config = None -> attribute_pass config = inr attrs ->
  validated_request (assembled config attrs).
Proof.
  intros Hvf Hattrs.
  destruct (validate_inputs_passed config Hvf) as (Harn & Hsize & Hstr & Hfifo & _).
  unfold validated_request, assembled. cbn.
  split; [now apply validateTopicArn_inr_iff|].
  split; [now apply validateMessage_inr_iff|].
  split; [destruct (validateMessageStructure_inr _ Hstr) as [-> | ->]; auto|].
  split.
  { intro Hf. apply carried_supplied. rewrite carried_idempotent. apply carried_supplied.
    apply truthy_supplied. apply is_fifo_endsWith in Hf.
    destruct (validateFifoTopic_cases (topicArn config) (messageGroupId config))
      as [(_ & _ & Hv) | [(Hf' & _ & _) | (Hfg & _)]]; [|congruence|congruence].
    rewrite Hv in Hfifo. discriminate. }
  split; [apply carried_not_empty|]. split; [apply carried_not_empty|].
  split; [apply carried_not_empty|].
  split; [|auto].
  intros parsed ->. unfold attribute_pass in Hattrs.
  destruct (carried (messageAttributes config)) as [s|]; [|discriminate].
  destruct (parseMessageAttributes s) as [e|parsed'] eqn:Hparse; [discriminate|].
  injection Hattrs as ->. destruct (parse_names s Hparse) as (Hlen & Hnd & _). auto.
Qed.

(** X2. Every request [publishMessage] hands to the client respects the
    validations: its ARN has the accepted shape, its body is within the size
    limit, its structure mode is absent or [json], it has a group id when
    the ARN ends with [.fifo], none of its optional strings is empty, its
    attributes are at most 10 under distinct names, and the target ARN and
    the phone number are unset. *)
Theorem sent_request_is_validated (client : SNSClient) (config : MessageConfig)
    (request : PublishCommandInput) :
  In request (requests (fst (publishMessage client config))) ->
  validated_request request.
Proof.
  destruct (publishMessage_projections client config) as (t & r & -> & Hreq & _).
  cbn [fst]. rewrite Hreq.
  destruct (first_failure config) as [e|] eqn:Hff; [intros []|].
  destruct (first_failure_none config Hff) as [Hvf [attrs Hattrs]]. rewrite Hattrs.
  intros [<- | []]. now apply assembled_is_validated.
Qed.

(** X3. An empty subject, attribute string, group id or deduplication id is
    the same to [publishMessage] as an absent one: the run, with its result
    and everything it logs and sends, is the run on the configuration
    without them. *)
Theorem empty_optional_is_absent (client : SNSClient) (config : MessageConfig) :
  publishMessage client config = publishMessage client (without_empty config).
Proof.
  destruct config as [arn body subj attrs gid did str]. unfold without_empty. cbn.
  destruct subj as [[|? ?]|], attrs as [[|? ?]|], gid as [[|? ?]|], did as [[|? ?]|];
    reflexivity.
Qed.

(** X4. The structure mode is the exception: the empty string is not taken
    for an absent value. Once the ARN and the size are accepted,
    [publishMessage] fails on it with the structure-mode error, which quotes
    the empty value, and sends nothing. *)
Theorem empty_structure_mode_is_rejected (client : SNSClient) (config : MessageConfig) :
  messageStructure config = Some [] ->
  validateTopicArn (topicArn config) = inr tt ->
  validateMessage (message config) = inr tt ->
  publishMessage client config
  = ([failure_log (errorMessage (structure_error []))],
     inr (failure (errorMessage (structure_error [])))).
Proof.
  intros Hstr Harn Hsize.
  assert (Hvf : validator_failure config = Some (structure_error [])).
  { unfold validator_failure. rewrite Harn, Hsize, Hstr.
    rewrite validateMessageStructure_other by discriminate. reflexivity. }
  assert (Hff : first_failure config = Some (structure_error [])).
  { unfold first_failure. now rewrite Hvf. }
  destruct (first_failure_outcome client config Hff) as (t & Hpub & _ & Hlog).
  now rewrite Hpub, (Hlog Hvf).
Qed.

(** X5. A failure is logged exactly once: when the result is a failure with
    message [m], the trace ends with the error line
    [Failed to publish message: m] and has no other error line; a success
    has no error line at all. *)
Theorem failure_is_logged_once (client : SNSClient) (config : MessageConfig) :
  exists t r,
    publishMessage client config = (t, inr r)
    /\ (success r = true -> error_logs t = [])
    /\ (success r = false -> exists m, error r = Some m)
    /\ (forall m, error r = Some m ->
          error_logs t = [js "Failed to publish message: " ++ m]
          /\ exists before, t = before ++ [ErrorLog (js "Failed to publish message: " ++ m)]).
Proof.
  destruct (publishMessage_projections client config)
    as (t & r & Hpub & _ & _ & Hlogs & Hlast & Hiff).
  exists t, r. split; [assumption|]. split; [|split].
  - intro Hs. apply Hiff in Hs. now rewrite Hlogs, Hs.
  - intro Hs. destruct (error r) as [m|]; [eauto|].
    assert (success r = true) by now apply Hiff. congruence.
  - intros m Hm. split; [now rewrite Hlogs, Hm | now apply Hlast].
Qed.

(** X6. The only warning [publishMessage] ever logs is the one about an
    ignored group id, and it logs it exactly when the ARN, size and
    structure validators pass, the ARN does not end with [.fifo] and a group
    id is supplied. *)
Theorem warning_iff_group_on_standard_topic (client : SNSClient) (config : MessageConfig) :
  (warnings (fst (publishMessage client config)) = [group_id_ignored]
   <-> validateTopicArn (topicArn config) = inr tt
       /\ validateMessage (message config) = inr tt
       /\ validateMessageStructure (messageStructure config) = inr tt
       /\ ~ is_fifo (topicArn config)
       /\ supplied (messageGroupId config))
  /\ (warnings (fst (publishMessage client config)) = []
      \/ warnings (fst (publishMessage client config)) = [group_id_ignored]).
Proof.
  destruct (publishMessage_projections client config) as (t & r & -> & _ & Hw & _).
  cbn [fst]. rewrite Hw. rewrite <- is_fifo_endsWith, <- truthy_supplied.
  destruct (validator_failure config) as [e|] eqn:Hvf.
  - split; [|now left]. split; [discriminate|].
    intros (Harn & Hsize & Hstr & Hf & Hg). exfalso.
    unfold validator_failure in Hvf. rewrite Harn, Hsize, Hstr in Hvf.
    destruct (validateFifoTopic_cases (topicArn config) (messageGroupId config))
      as [(Hf' & _ & _) | [(_ & _ & Hv) | (Hfg & _)]]; [congruence | | ].
    + rewrite Hv in Hvf. discriminate.
    + rewrite Hfg in Hf. contradiction.
  - destruct (validate_inputs_passed config Hvf) as (Harn & Hsize & Hstr & _ & _).
    assert (Hcond : expected_warnings config = [group_id_ignored]
                    <-> endsWith (topicArn config) (js ".fifo") <> true
                        /\ truthy (messageGroupId config) = true).
    { unfold expected_warnings.
      destruct (endsWith (topicArn config) (js ".fifo")), (truthy (messageGroupId config));
        simpl; split; try discriminate; try (intros [H1 H2]; congruence); auto. }
    split; [rewrite Hcond; tauto|].
    unfold expected_warnings. destruct (negb _ && _); auto.
Qed.

(** X7. The deduplication id is never validated: whatever its value, on a
    FIFO topic or on a standard one, the first failing validation is the
    same and so are the warnings; the id only shows in the request, which
    carries it when it is not empty. *)
Theorem deduplication_id_is_not_validated (client : SNSClient) (config : MessageConfig)
    (id : option jsstring) :
  first_failure (with_messageDeduplicationId config id) = first_failure config
  /\ warnings (fst (publishMessage client (with_messageDeduplicationId config id)))
     = warnings (fst (publishMessage client config))
  /\ (forall request,
        In request (requests (fst (publishMessage client (with_messageDeduplicationId config id)))) ->
        MessageDeduplicationId request = carried id).
Proof.
  assert (Hff : first_failure (with_messageDeduplicationId config id) = first_failure config)
    by reflexivity.
  split; [exact Hff|]. split.
  - destruct (publishMessage_projections client config) as (t & r & -> & _ & Hw & _).
    destruct (publishMessage_projections client (with_messageDeduplicationId config id))
      as (t' & r' & -> & _ & Hw' & _).
    cbn [fst]. rewrite Hw, Hw'. reflexivity.
  - destruct (publishMessage_projections client (with_messageDeduplicationId config id))
      as (t' & r' & -> & Hreq & _).
    cbn [fst]. rewrite Hreq. intro request.
    destruct (first_failure _); [intros []|].
    destruct (attribute_pass _); [intros []|].
    intros [<- | []]. reflexivity.
Qed.

(** X9. An attribute string that parses to a value without entries (an empty
    object or array, a number, a boolean, an empty string) is accepted: the
    request carries an attribute mapping that is present and empty. The
    text [null] is rejected, and nothing is sent. *)
Theorem entryless_attributes_are_sent_empty (client : SNSClient) (config : MessageConfig)
    (text : jsstring) (parsed : json) :
  validator_failure config = None ->
  messageAttributes config = Some text -> text <> [] ->
  JSON.parse text = Some parsed -> own_entries parsed = [] ->
  (parsed <> JNull ->
   requests (fst (publishMessage client config)) = [assembled config (Some [])])
  /\ (parsed = JNull ->
      exists t,
        publishMessage client config
        = (t, inr (failure (errorMessage (wrapped (Error (fault_message Keys_of_null))))))
        /\ requests t = []).
Proof.
  intros Hvf Hattrs Hne Hp He.
  assert (Hcarried : carried (messageAttributes config) = Some text).
  { rewrite Hattrs. destruct text; [contradiction | reflexivity]. }
  split.
  - intro Hn.
    assert (Hpass : attribute_pass config = inr (Some [])).
    { unfold attribute_pass. rewrite Hcarried, (parse_entryless text Hp Hn He). reflexivity. }
    destruct (publishMessage_projections client config) as (t & r & -> & Hreq & _).
    cbn [fst]. rewrite Hreq. unfold first_failure. now rewrite Hvf, Hpass.
  - intros ->.
    assert (Hff : first_failure config
                  = Some (wrapped (Error (fault_message Keys_of_null)))).
    { unfold first_failure, attribute_pass.
      rewrite Hvf, Hcarried, (parse_null text Hp). reflexivity. }
    destruct (first_failure_outcome client config Hff) as (t & Hpub & Hreq & _). eauto.
Qed.

End PublishingProperties.

(* ================================================================== *)
(** * The entry point *)
(* ================================================================== *)

Lemma outputs_app (t u : list action_event) : outputs (t ++ u) = outputs t ++ outputs u.
Proof. induction t as [|ev t IH]; [reflexivity|]. destruct ev; simpl; now rewrite ?IH. Qed.

Lemma failures_app (t u : list action_event) : failures (t ++ u) = failures t ++ failures u.
Proof. induction t as [|ev t IH]; [reflexivity|]. destruct ev; simpl; now rewrite ?IH. Qed.

Lemma steps_app (t u : list action_event) : steps (t ++ u) = steps t ++ steps u.
Proof. induction t as [|ev t IH]; [reflexivity|]. destruct ev; simpl; now rewrite ?IH. Qed.

Lemma steps_map (t : list event) :
  steps (map Step t) = t /\ outputs (map Step t) = [] /\ failures (map Step t) = [].
Proof. induction t as [|ev t (IH1 & IH2 & IH3)]; simpl; [auto|]. rewrite IH1. auto. Qed.

Lemma logging_silent (t : list action_event) :
  logging t -> outputs t = [] /\ failures t = [] /\ requests (steps t) = [].
Proof.
  intros [lines ->]. induction lines as [|m lines (IH1 & IH2 & IH3)]; simpl; auto.
Qed.

Lemma setting_outputs (l : list (jsstring * jsstring)) :
  outputs (setting l) = l /\ failures (setting l) = [] /\ steps (setting l) = [].
Proof.
  induction l as [|[n v] l (IH1 & IH2 & IH3)]; simpl; [auto|]. rewrite IH1. auto.
Qed.

Lemma or_undefined_carried (value : jsstring) : carried (or_undefined value) = or_undefined value.
Proof. now destruct value. Qed.

Section Run.
Context {R : Runtime}.

Lemma at_most_one_request (client : SNSClient) (config : MessageConfig) :
  (List.length (requests (fst (publishMessage client config))) <= 1)%nat.
Proof.
  destruct (publishMessage_projections client config) as (t & r & -> & Hreq & _).
  cbn [fst]. rewrite Hreq.
  destruct (first_failure config); [simpl; lia|].
  destruct (attribute_pass config); simpl; lia.
Qed.

Lemma read_inputs_normal (inputs : Inputs) (config : MessageConfig) :
  read_inputs inputs = inr config -> without_empty config = config /\ 
  carried (messageStructure config) = messageStructure config.
Proof.
  unfold read_inputs.
  destruct (inputs (js "topic-arn") true) as [e|a]; [discriminate|].
  destruct (inputs (js "message") true) as [e|b]; [discriminate|].
  destruct (inputs (js "subject") false) as [e|c]; [discriminate|].
  destruct (inputs (js "message-attributes") false) as [e|d]; [discriminate|].
  destruct (inputs (js "message-group-id") false) as [e|f]; [discriminate|].
  destruct (inputs (js "message-deduplication-id") false) as [e|g]; [discriminate|].
  destruct (inputs (js "message-structure") false) as [e|h]; [discriminate|].
  cbn [rbind]. intros [= <-]. unfold without_empty. cbn.
  now rewrite !or_undefined_carried.
Qed.

(** Every run of [run], by what [publishMessage] returns. *)
Lemma run_outcome (inputs : Inputs) (client : SNSClient) :
  match read_inputs inputs with
  | inl e => run inputs client = ([SetFailed (errorMessage e)], inr tt)
  | inr config =>
      exists t r summary,
        publishMessage client config = (t, inr r)
        /\ logging summary
        /\ run inputs client
           = (Step (Info (js "AWS SNS Send Message"))
              :: Step (Info (js "Topic ARN: " ++ topicArn config))
              :: map Step t
              ++ (if success r
                  then setting (expected_outputs r) ++ summary
                  else [SetFailed (failure_message r)]),
              inr tt)
  end.
Proof.
  unfold read_inputs, run, run_body, getInput.
  destruct (inputs (js "topic-arn") true) as [e|a]; [reflexivity|].
  destruct (inputs (js "message") true) as [e|b]; [reflexivity|].
  destruct (inputs (js "subject") false) as [e|c]; [reflexivity|].
  destruct (inputs (js "message-attributes") false) as [e|d]; [reflexivity|].
  destruct (inputs (js "message-group-id") false) as [e|f]; [reflexivity|].
  destruct (inputs (js "message-deduplication-id") false) as [e|g]; [reflexivity|].
  destruct (inputs (js "message-structure") false) as [e|h]; [reflexivity|].
  cbn [rbind abind app].
  match goal with |- context [publishMessage client ?c] => set (config := c) end.
  destruct (publishMessage_projections client config) as (t & r & Hpub & _).
  set (lines := [[]; rule; js "Message published successfully"]
                ++ match carried (messageId r) with
                   | Some s => [js "Message ID: " ++ s]
                   | None => []
                   end
                ++ match carried (sequenceNumber r) with
                   | Some s => [js "Sequence Number: " ++ s]
                   | None => []
                   end
                ++ [rule]).
  exists t, r, (map (fun m => Step (Info m)) lines).
  split; [assumption|]. split; [now exists lines|].
  rewrite Hpub. unfold await. cbn [fst snd]. subst lines.
  destruct r as [ok mid seq err]. unfold failure_message, expected_outputs, setting. cbn.
  destruct ok; cbn.
  - destruct mid as [[|? ?]|], seq as [[|? ?]|]; cbn; rewrite ?app_nil_r;
      repeat (rewrite <- app_assoc; cbn); reflexivity.
  - destruct err as [[|? ?]|]; cbn; rewrite ?app_nil_r; reflexivity.
Qed.

Lemma unreadable_input_outcome (inputs : Inputs) (client : SNSClient) (e : thrown) :
  read_inputs inputs = inl e -> run inputs client = ([SetFailed (errorMessage e)], inr tt).
Proof. intro He. pose proof (run_outcome inputs client) as H. now rewrite He in H. Qed.

(** X13. When an input cannot be read, [run] does nothing but signal the
    failure with the message of the error: nothing is logged and
    [publishMessage] is not called. This holds for the required topic ARN,
    for the required message once the topic ARN is read, and for whichever
    of the seven inputs is the first that cannot be read. *)
Theorem unreadable_input_fails_run (inputs : Inputs) (client : SNSClient) :
  (forall e, inputs (js "topic-arn") true = inl e ->
     run inputs client = ([SetFailed (errorMessage e)], inr tt))
  /\ (forall arn e,
        inputs (js "topic-arn") true = inr arn -> inputs (js "message") true = inl e ->
        run inputs client = ([SetFailed (errorMessage e)], inr tt))
  /\ (forall e, read_inputs inputs = inl e ->
        run inputs client = ([SetFailed (errorMessage e)], inr tt)).
Proof.
  split; [|split].
  - intros e He. apply unreadable_input_outcome. unfold read_inputs. now rewrite He.
  - intros arn e Harn He. apply unreadable_input_outcome. unfold read_inputs.
    now rewrite Harn, He.
  - intros e He. now apply unreadable_input_outcome.
Qed.

(** X14. When [publishMessage] returns a failure, [run] sets no output and
    ends with one failure signal. Its message is the error message of the
    result, or the fixed text [Failed to publish message] when that message
    is empty. *)
Theorem failed_publish_fails_run (inputs : Inputs) (client : SNSClient)
    (config : MessageConfig) (t : list event) (r : MessageResult) :
  read_inputs inputs = inr config ->
  publishMessage client config = (t, inr r) ->
  success r = false ->
  failures (fst (run inputs client)) = [failure_message r]
  /\ outputs (fst (run inputs client)) = []
  /\ (exists before, fst (run inputs client) = before ++ [SetFailed (failure_message r)])
  /\ (error r = Some [] -> failure_message r = js "Failed to publish message")
  /\ (forall m, error r = Some m -> m <> [] -> failure_message r = m).
Proof.
  intros Hread Hpub Hfail. pose proof (run_outcome inputs client) as H.
  rewrite Hread in H. destruct H as (t' & r' & summary & Hpub' & _ & Hrun).
  assert (t' = t /\ r' = r) as [-> ->] by (rewrite Hpub in Hpub'; now injection Hpub').
  rewrite Hrun, Hfail. cbn [fst].
  destruct (steps_map t) as (_ & Ho & Hf).
  split; [simpl; now rewrite failures_app, Hf|].
  split; [simpl; now rewrite outputs_app, Ho|].
  split; [eexists (_ :: _ :: map Step t); reflexivity|].
  unfold failure_message. split.
  - now intros ->.
  - intros m -> Hm. destruct m; [contradiction | reflexivity].
Qed.

(** X15. When [publishMessage] returns a success, [run] signals no failure
    and sets the outputs from the result: [message-id] exactly when the
    result has a message id that is not empty, then [sequence-number]
    exactly when it has a sequence number that is not empty. *)
Theorem successful_publish_sets_outputs (inputs : Inputs) (client : SNSClient)
    (config : MessageConfig) (t : list event) (r : MessageResult) :
  read_inputs inputs = inr config ->
  publishMessage client config = (t, inr r) ->
  success r = true ->
  failures (fst (run inputs client)) = []
  /\ outputs (fst (run inputs client)) = expected_outputs r
  /\ (In (js "message-id") (map fst (outputs (fst (run inputs client))))
      <-> supplied (messageId r))
  /\ (In (js "sequence-number") (map fst (outputs (fst (run inputs client))))
      <-> supplied (sequenceNumber r)).
Proof.
  intros Hread Hpub Hok. pose proof (run_outcome inputs client) as H.
  rewrite Hread in H. destruct H as (t' & r' & summary & Hpub' & Hlog & Hrun).
  assert (t' = t /\ r' = r) as [-> ->] by (rewrite Hpub in Hpub'; now injection Hpub').
  destruct (steps_map t) as (_ & Ho & Hf).
  destruct (logging_silent Hlog) as (Hso & Hsf & _).
  destruct (setting_outputs (expected_outputs r)) as (Heo & Hef & _).
  assert (Hout : outputs (fst (run inputs client)) = expected_outputs r).
  { rewrite Hrun, Hok. cbn [fst]. simpl.
    now rewrite !outputs_app, Ho, Heo, Hso, app_nil_r. }
  split.
  { rewrite Hrun, Hok. cbn [fst]. simpl. now rewrite !failures_app, Hf, Hef, Hsf. }
  split; [exact Hout|]. rewrite Hout, <- !carried_supplied. unfold expected_outputs.
  destruct (carried (messageId r)), (carried (sequenceNumber r)); simpl;
    repeat split; intros; try discriminate; try congruence; auto;
    repeat match goal with H : _ \/ _ |- _ => destruct H end;
    try discriminate; try contradiction.
Qed.

(** X16. A run of [run] throws nothing and ends in one of two ways: without
    a failure signal, or with exactly one failure signal, which is the last
    thing it does, and then without any output. It hands at most one
    request to the client. *)
Theorem run_fails_or_reports (inputs : Inputs) (client : SNSClient) :
  exists t,
    run inputs client = (t, inr tt)
    /\ (failures t = []
        \/ exists before m, t = before ++ [SetFailed m] /\ failures t = [m] /\ outputs t = [])
    /\ (List.length (requests (steps t)) <= 1)%nat.
Proof.
  pose proof (run_outcome inputs client) as H.
  destruct (read_inputs inputs) as [e|config].
  - rewrite H. eexists. split; [reflexivity|]. split; [|simpl; lia].
    right. exists [], (errorMessage e). auto.
  - destruct H as (t & r & summary & Hpub & Hlog & ->).
    eexists. split; [reflexivity|].
    destruct (steps_map t) as (Hs & Ho & Hf).
    destruct (logging_silent Hlog) as (Hso & Hsf & Hsr).
    destruct (setting_outputs (expected_outputs r)) as (Heo & Hef & Hes).
    assert (Hone : (List.length (requests t) <= 1)%nat).
    { pose proof (at_most_one_request client config) as Hb.
      now rewrite Hpub in Hb. }
    destruct (success r).
    + split.
      * left. simpl. now rewrite !failures_app, Hf, Hef, Hsf.
      * simpl. rewrite !steps_app, Hs, Hes, !requests_app, Hsr. simpl.
        rewrite app_nil_r. exact Hone.
    + split.
      * right. exists (Step (Info (js "AWS SNS Send Message"))
                       :: Step (Info (js "Topic ARN: " ++ topicArn config))
                       :: map Step t), (failure_message r).
        split; [reflexivity|]. simpl. now rewrite failures_app, outputs_app, Hf, Ho.
      * simpl. rewrite !steps_app, Hs, !requests_app. simpl.
        rewrite app_nil_r. exact Hone.
Qed.

(** X17. Through [run] an empty optional input is never handed on: in the
    configuration it passes to [publishMessage] every optional field,
    the structure mode included, is absent or not empty. The requests of
    the run are those of [publishMessage] on that configuration. *)
Theorem run_drops_empty_inputs (inputs : Inputs) (client : SNSClient)
    (config : MessageConfig) :
  read_inputs inputs = inr config ->
  subject config <> Some []
  /\ messageAttributes config <> Some []
  /\ messageGroupId config <> Some []
  /\ messageDeduplicationId config <> Some []
  /\ messageStructure config <> Some []
  /\ requests (steps (fst (run inputs client))) = requests (fst (publishMessage client config)).
Proof.
  intro Hread. destruct (read_inputs_normal inputs Hread) as [Hnorm Hstr].
  assert (Hfields : subject config = carried (subject config)
                    /\ messageAttributes config = carried (messageAttributes config)
                    /\ messageGroupId config = carried (messageGroupId config)
                    /\ messageDeduplicationId config = carried (messageDeduplicationId config)).
  { unfold without_empty in Hnorm. destruct config; cbn in *. injection Hnorm. auto. }
  destruct Hfields as (H1 & H2 & H3 & H4).
  split; [rewrite H1; apply carried_not_empty|].
  split; [rewrite H2; apply carried_not_empty|].
  split; [rewrite H3; apply carried_not_empty|].
  split; [rewrite H4; apply carried_not_empty|].
  split; [rewrite <- Hstr; apply carried_not_empty|].
  pose proof (run_outcome inputs client) as H. rewrite Hread in H.
  destruct H as (t & r & summary & Hpub & Hlog & ->). rewrite Hpub. cbn [fst].
  destruct (steps_map t) as (Hs & _ & _).
  destruct (logging_silent Hlog) as (_ & _ & Hsr).
  destruct (setting_outputs (expected_outputs r)) as (_ & _ & Hes).
  simpl. destruct (success r).
  - now rewrite !steps_app, Hs, Hes, !requests_app, Hsr, app_nil_r.
  - rewrite !steps_app, Hs, !requests_app. simpl. now rewrite app_nil_r.
Qed.

End Run.

(* ================================================================== *)
(** * Conversion of the textual value *)
(* ================================================================== *)

Section Coercion.
Context {R : Runtime}.

Lemma ToString_opt_strings (items : list jsstring) :
  ToString_opt (JArray (map JString items)) = Some (intercalate (js ",") items).
Proof.
  cbn [ToString_opt].
  match goal with |- option_map _ ?e = _ => assert (H : e = Some items) end.
  { induction items as [|x items IH]; [reflexivity|]. cbn in *. now rewrite IH. }
  now rewrite H.
Qed.

(** X10. A [StringValue] that is not a string is converted with [String()],
    not rejected: for an entry of a textual data type without a
    [BinaryValue], the attribute carries the conversion of whatever value
    the field has. So [null] gives the text [null], a boolean gives [true]
    or [false], and a JSON array of strings gives its items joined by
    commas, without brackets or quotes, also for the type String.Array. *)
Theorem string_value_is_coerced (key : jsstring) (value v : json) (dt s : jsstring) :
  field value (js "DataType") = Some (JString dt) ->
  textual dt ->
  field value (js "StringValue") = Some v ->
  field value (js "BinaryValue") = None ->
  ToString_opt v = Some s ->
  messageAttr_of key value
  = inr {| DataType := dt; StringValue := Some s; BinaryValue := None |}
  /\ (v = JNull -> s = js "null")
  /\ (forall b : bool, v = JBool b -> s = if b then js "true" else js "false")
  /\ (forall text, v = JString text -> s = text)
  /\ (forall items, v = JArray (map JString items) -> s = intercalate (js ",") items).
Proof.
  intros Hd Ht Hs Hb Hv. split.
  - apply messageAttr_of_encodes. unfold encodes. cbn [DataType StringValue BinaryValue].
    rewrite Hd, Hs, Hb. unfold converted, ToString. rewrite Hv.
    split; [reflexivity|]. split.
    { unfold validDataTypes. destruct Ht as [-> | [-> | ->]]; simpl; auto. }
    split; [discriminate|]. split.
    { intros ->. destruct Ht as [Ht | [Ht | Ht]]; discriminate Ht. }
    split; [eauto | reflexivity].
  - split; [|split; [|split]].
    + intros ->. injection Hv as <-. reflexivity.
    + intros b ->. destruct b; injection Hv as <-; reflexivity.
    + intros text ->. injection Hv as <-. reflexivity.
    + intros items ->. rewrite ToString_opt_strings in Hv. now injection Hv as <-.
Qed.

End Coercion.

(* ================================================================== *)
(** * The further properties on the sample inputs *)
(* ================================================================== *)

Lemma full_request_is_validated :
  exists request,
    requests (fst (publishMessage (answering fifo_response) full_config)) = [request]
    /\ validated_request request.
Proof.
  eexists. split; [vm_compute; reflexivity|].
  apply (@sent_request_is_validated runtime (answering fifo_response) full_config).
  vm_compute. left. reflexivity.
Defined.

Lemma empty_structure_config_fails :
  publishMessage (answering response_with_id) empty_structure_config
  = ([failure_log (errorMessage (structure_error []))],
     inr (failure (errorMessage (structure_error [])))).
Proof.
  apply (@empty_structure_mode_is_rejected runtime (answering response_with_id)
           empty_structure_config); reflexivity.
Defined.


Lemma empty_object_is_sent_empty :
  (JObject [] <> JNull ->
   requests (fst (publishMessage (answering response_with_id) empty_object_config))
   = [assembled empty_object_config (Some [])])
  /\ (JObject [] = JNull ->
      exists t,
        publishMessage (answering response_with_id) empty_object_config
        = (t, inr (failure (errorMessage (wrapped (Error (fault_message Keys_of_null))))))
        /\ requests t = []).
Proof.
  apply (@entryless_attributes_are_sent_empty runtime (answering response_with_id)
           empty_object_config (js "{}") (JObject [])).
  - vm_compute. reflexivity.
  - reflexivity.
  - discriminate.
  - reflexivity.
  - reflexivity.
Defined.

Lemma standard_arn_extends :
  validateTopicArn (standard_arn ++ js "-v2") = inr tt
  /\ validateTopicArn (standard_arn ++ js ".fifo") = inr tt
  /\ validateFifoTopic (standard_arn ++ js ".fifo") None = ([], inl group_id_required).
Proof.
  apply (@accepted_arn_extends standard_arn (js "-v2")); reflexivity.
Defined.

Lemma wide_message_passes : validateMessage wide_message = inr tt.
Proof.
  apply (proj1 (validateMessage_by_length wide_message)).
  vm_compute. discriminate.
Defined.

Lemma array_value_is_joined :
  messageAttr_of (js "tags") array_value_entry
  = inr {| DataType := js "String.Array"; StringValue := Some (js "a,b");
           BinaryValue := None |}.
Proof.
  apply (proj1 (@string_value_is_coerced runtime (js "tags") array_value_entry
                  (JArray [JString (js "a"); JString (js "b")])
                  (js "String.Array") (js "a,b") eq_refl
                  (or_intror (or_intror eq_refl)) eq_refl eq_refl eq_refl)).
Defined.

Lemma missing_message_fails_run :
  run no_message_inputs (answering response_with_id)
  = ([SetFailed (js "Input required and not supplied: message")], inr tt).
Proof.
  apply (proj1 (proj2 (@unreadable_input_fails_run runtime no_message_inputs
                         (answering response_with_id)))
           standard_arn (Error (js "Input required and not supplied: message")));
    reflexivity.
Defined.

Lemma empty_rejection_fails_run :
  let client := rejecting (Error []) in
  let r := failure [] in
  failures (fst (run plain_inputs client)) = [failure_message r]
  /\ outputs (fst (run plain_inputs client)) = []
  /\ (exists before, fst (run plain_inputs client) = before ++ [SetFailed (failure_message r)])
  /\ (error r = Some [] -> failure_message r = js "Failed to publish message")
  /\ (forall m, error r = Some m -> m <> [] -> failure_message r = m).
Proof.
  intros client r.
  apply (@failed_publish_fails_run runtime plain_inputs client plain_config
           (fst (publishMessage client plain_config)) r).
  - vm_compute. reflexivity.
  - vm_compute. reflexivity.
  - reflexivity.
Defined.

Lemma plain_run_sets_message_id :
  let client := answering response_with_id in
  let r := {| success := true; messageId := Some (js "id-1"); sequenceNumber := None;
              error := None |} in
  failures (fst (run plain_inputs client)) = []
  /\ outputs (fst (run plain_inputs client)) = expected_outputs r
  /\ (In (js "message-id") (map fst (outputs (fst (run plain_inputs client))))
      <-> supplied (messageId r))
  /\ (In (js "sequence-number") (map fst (outputs (fst (run plain_inputs client))))
      <-> supplied (sequenceNumber r)).
Proof.
  intros client r.
  apply (@successful_publish_sets_outputs runtime plain_inputs client plain_config
           (fst (publishMessage client plain_config)) r).
  - vm_compute. reflexivity.
  - vm_compute. reflexivity.
  - reflexivity.
Defined.

Lemma plain_run_drops_empty_inputs :
  subject plain_config <> Some []
  /\ messageAttributes plain_config <> Some []
  /\ messageGroupId plain_config <> Some []
  /\ messageDeduplicationId plain_config <> Some []
  /\ messageStructure plain_config <> Some []
  /\ requests (steps (fst (run plain_inputs (answering response_with_id))))
     = requests (fst (publishMessage (answering response_with_id) plain_config)).
Proof.
  apply (@run_drops_empty_inputs runtime plain_inputs (answering response_with_id) plain_config).
  vm_compute. reflexivity.
Defined.

Example plain_run :
  fst (run plain_inputs (answering response_with_id))
  = [Step (Info (js "AWS SNS Send Message"));
     Step (Info (js "Topic ARN: " ++ standard_arn));
     Step (Info (js "Publishing message to topic: " ++ standard_arn));
     Step (Info (js "Message size: 5 bytes"));
     Step (Send (new_input standard_arn (js "hello")));
     Step (Info (check_mark ++ js " Message published successfully"));
     Step (Info (js "Message ID: id-1"));
     SetOutput (js "message-id") (js "id-1");
     Step (Info []);
     Step (Info rule);
     Step (Info (js "Message published successfully"));
     Step (Info (js "Message ID: id-1"));
     Step (Info rule)].
Proof. vm_compute. reflexivity. Qed.
